(** * ESP-Rover voice relay: the command matcher and its request handler

    Shallow embedding of [terraform/lambda/lambda_function.py].

    - Text is a [string] whose characters are the code points below 256;
      [PyStr] gives [str.lower], [str.strip] and [str.split] on that range.
    - Python dictionaries are association lists in insertion order.  The
      dictionaries that the program shares and mutates live in a heap and
      are handled through their locations, so that [dict.copy] and item
      assignment keep their aliasing behaviour.
    - Exceptions are the [Raise] case of [result].
    - The services the handler talks to (JSON decoding, base64, the blob
      store, the transcription service, the clock) are the fields of a
      [world]; the external calls a run performs are logged as [event]s. *)

From Stdlib Require Import ZArith QArith String Ascii List Lia.
From stdpp Require Import base list strings.
From Equations Require Import Equations.

Local Open Scope string_scope.
Local Open Scope list_scope.

(** ** Python strings *)

Module PyStr.

(** [str.isspace] of one character. *)
Definition isspace (c : ascii) : bool :=
  let n := N_of_ascii c in
  (((9 <=? n) && (n <=? 13)) || ((28 <=? n) && (n <=? 32))
   || (n =? 133) || (n =? 160))%N.

(** [str.lower] of one character. *)
Definition lower_char (c : ascii) : ascii :=
  let n := N_of_ascii c in
  if (((65 <=? n) && (n <=? 90))
      || ((192 <=? n) && (n <=? 222) && negb (n =? 215)))%N
  then ascii_of_N (n + 32) else c.

Fixpoint lower (s : string) : string :=
  match s with
  | EmptyString => EmptyString
  | String c s' => String (lower_char c) (lower s')
  end.

Fixpoint lstrip (s : string) : string :=
  match s with
  | EmptyString => EmptyString
  | String c s' => if isspace c then lstrip s' else s
  end.

Definition rstrip (s : string) : string :=
  String.rev (lstrip (String.rev s)).

Definition strip (s : string) : string := rstrip (lstrip s).

(** [flush cur] closes the word read so far ([cur] holds it reversed). *)
Definition flush (cur : string) : list string :=
  match cur with
  | EmptyString => []
  | _ => [String.rev cur]
  end.

Fixpoint split_from (cur : string) (s : string) : list string :=
  match s with
  | EmptyString => flush cur
  | String c s' =>
      if isspace c then flush cur ++ split_from EmptyString s'
      else split_from (String c cur) s'
  end.

(** [str.split()] without arguments: the maximal runs of characters that
    are not white space. *)
Definition split (s : string) : list string := split_from EmptyString s.

(** [word in words] for a list of strings. *)
Definition mem (w : string) (ws : list string) : bool :=
  existsb (String.eqb w) ws.

End PyStr.

(** ** Python values, dictionaries and exceptions *)

#[local] Set Warnings "-register-all".

Inductive pyvalue : Type :=
| PNone
| PBool (b : bool)
| PInt (n : Z)
| PStr (s : string)
| PList (xs : list pyvalue)
| PDict (kvs : list (string * pyvalue)).

Definition dict : Type := list (string * pyvalue).

(** Truth value of an object, as [if x:] tests it. *)
Definition truthy (v : pyvalue) : bool :=
  match v with
  | PNone => false
  | PBool b => b
  | PInt n => negb (n =? 0)%Z
  | PStr s => negb (String.eqb s "")
  | PList xs => match xs with [] => false | _ => true end
  | PDict kvs => match kvs with [] => false | _ => true end
  end.

(** [v == s] for a string literal [s]. *)
Definition eq_str (v : pyvalue) (s : string) : bool :=
  match v with
  | PStr t => String.eqb t s
  | _ => false
  end.

Module Dict.

(** [d.get(k)], with [None] standing for a missing key. *)
Fixpoint get (d : dict) (k : string) : option pyvalue :=
  match d with
  | [] => None
  | (k', v) :: d' => if String.eqb k' k then Some v else get d' k
  end.

(** [k in d]. *)
Definition has (d : dict) (k : string) : bool :=
  match get d k with Some _ => true | None => false end.

(** [d[k] = v]: an existing key keeps its place, a new one goes last. *)
Fixpoint set (d : dict) (k : string) (v : pyvalue) : dict :=
  match d with
  | [] => [(k, v)]
  | (k', v') :: d' =>
      if String.eqb k' k then (k', v) :: d' else (k', v') :: set d' k v
  end.

Definition keys (d : dict) : list string := map fst d.

End Dict.

Inductive result (A : Type) : Type :=
| Ok (a : A)
| Raise (msg : string).
Arguments Ok {A} a.
Arguments Raise {A} msg.

(** ** The interpreter state: the module global and the heap of dictionaries *)

(** Locations of heap objects. *)
Abbreviation loc := nat (only parsing).

Record pystate : Type := MkState {
  COMMAND_MAPPINGS : list (string * loc);
  heap : list dict
}.

Definition Py (A : Type) : Type := pystate -> result A * pystate.

Definition ret {A} (a : A) : Py A := fun st => (Ok a, st).

Definition raise {A} (msg : string) : Py A := fun st => (Raise msg, st).

Definition bind {A B} (m : Py A) (k : A -> Py B) : Py B :=
  fun st =>
    match m st with
    | (Ok a, st') => k a st'
    | (Raise msg, st') => (Raise msg, st')
    end.

Declare Scope py_scope.
Delimit Scope py_scope with py.
Notation "x <~ m ;; k" := (bind m (fun x => k))
  (at level 100, m at next level, right associativity) : py_scope.
Notation "m ;;; k" := (bind m (fun _ => k))
  (at level 100, right associativity) : py_scope.

(** Reading through a reference.  Python has no dangling references; the
    [Raise] case is there to keep the function total and is shown
    unreachable by [catalog_intact]. *)
Definition deref (l : loc) : Py dict :=
  fun st =>
    match heap st !! l with
    | Some d => (Ok d, st)
    | None => (Raise "dangling reference", st)
    end.

(** A new dictionary object. *)
Definition alloc (d : dict) : Py loc :=
  fun st =>
    (Ok (length (heap st)),
     MkState (COMMAND_MAPPINGS st) (heap st ++ [d])).

(** [d.copy()]: a new object with the same items. *)
Definition dict_copy (l : loc) : Py loc :=
  (d <~ deref l ;; alloc d)%py.

(** [d[k] = v] on the object at [l]. *)
Definition dict_setitem (l : loc) (k : string) (v : pyvalue) : Py unit :=
  fun st =>
    match heap st !! l with
    | Some d =>
        (Ok tt, MkState (COMMAND_MAPPINGS st) (<[l := Dict.set d k v]> (heap st)))
    | None => (Raise "dangling reference", st)
    end.

(** [d[k]], raising [KeyError]. *)
Definition dict_getitem (d : dict) (k : string) : Py pyvalue :=
  match Dict.get d k with
  | Some v => ret v
  | None => raise ("'" +:+ k +:+ "'")
  end.

(** Lookup in the global mapping (an ordered association list). *)
Fixpoint assoc (items : list (string * loc)) (k : string) : option loc :=
  match items with
  | [] => None
  | (k', l) :: items' => if String.eqb k' k then Some l else assoc items' k
  end.

Definition mappings_items : Py (list (string * loc)) :=
  fun st => (Ok (COMMAND_MAPPINGS st), st).

(** ** The command catalog (source lines 20-58) *)

Definition template (action : string) (direction speed : pyvalue) : dict :=
  [("action", PStr action); ("direction", direction); ("speed", speed)].

Definition modifier (value : string) : dict :=
  [("modifier", PStr "speed"); ("value", PStr value)].

Definition catalog : list (string * dict) :=
  [ ("forward", template "move" (PStr "forward") (PStr "normal"));
    ("move forward", template "move" (PStr "forward") (PStr "normal"));
    ("go forward", template "move" (PStr "forward") (PStr "normal"));
    ("backward", template "move" (PStr "backward") (PStr "normal"));
    ("move backward", template "move" (PStr "backward") (PStr "normal"));
    ("go backward", template "move" (PStr "backward") (PStr "normal"));
    ("reverse", template "move" (PStr "backward") (PStr "normal"));
    ("turn left", template "turn" (PStr "left") (PStr "normal"));
    ("left", template "turn" (PStr "left") (PStr "normal"));
    ("turn right", template "turn" (PStr "right") (PStr "normal"));
    ("right", template "turn" (PStr "right") (PStr "normal"));
    ("strafe left", template "strafe" (PStr "left") (PStr "normal"));
    ("slide left", template "strafe" (PStr "left") (PStr "normal"));
    ("strafe right", template "strafe" (PStr "right") (PStr "normal"));
    ("slide right", template "strafe" (PStr "right") (PStr "normal"));
    ("forward left", template "diagonal" (PStr "forward_left") (PStr "normal"));
    ("forward right", template "diagonal" (PStr "forward_right") (PStr "normal"));
    ("backward left", template "diagonal" (PStr "backward_left") (PStr "normal"));
    ("backward right", template "diagonal" (PStr "backward_right") (PStr "normal"));
    ("stop", template "stop" PNone PNone);
    ("halt", template "stop" PNone PNone);
    ("freeze", template "stop" PNone PNone);
    ("slow", modifier "slow");
    ("fast", modifier "fast");
    ("quickly", modifier "fast");
    ("slowly", modifier "slow") ].

(** The state right after the module is loaded: every dictionary literal of
    the table is an object of its own, and [COMMAND_MAPPINGS] maps the
    phrases, in the order they are written, to these objects. *)
Definition initial_state : pystate :=
  MkState (imap (fun i (e : string * dict) => (fst e, i)) catalog)
          (map snd catalog).

(** ** [parse_command_from_text] (source lines 213-271) *)

(** Lines 232-235: the first word that is a key of the mapping and whose
    entry has [modifier == 'speed'] gives the speed modifier; the scan
    stops there.  [PNone] is the initial [speed_modifier = None]. *)
Fixpoint speed_modifier_scan (words : list string) : Py pyvalue :=
  match words with
  | [] => ret PNone
  | word :: rest =>
      (items <~ mappings_items ;;
       match assoc items word with
       | Some l =>
           d <~ deref l ;;
           if eq_str (default PNone (Dict.get d "modifier")) "speed"
           then dict_getitem d "value"
           else speed_modifier_scan rest
       | None => speed_modifier_scan rest
       end)%py
  end.

(** Lines 246-251: the number of words of the phrase found among [words]. *)
Fixpoint count_matches (phrase_words words : list string) : nat :=
  match phrase_words with
  | [] => 0
  | word :: rest =>
      (if PyStr.mem word words then 1 else 0) + count_matches rest words
  end.

(** [score / len(phrase_words)], a true division of two integers.  The
    quotients that arise (see [catalog_phrase_lengths]) are 0, 1/2 and 1,
    which binary floating point represents exactly, so the rational is the
    float that Python computes. *)
Definition normalize (score len : nat) : Q :=
  (inject_Z (Z.of_nat score) / inject_Z (Z.of_nat len))%Q.

(** The normalized score of a phrase against the words of the input
    (lines 245-254). *)
Definition phrase_score (phrase : string) (words : list string) : Q :=
  normalize (count_matches (PyStr.split phrase) words)
            (length (PyStr.split phrase)).

(** [a > b] on scores. *)
Definition Qgtb (a b : Q) : bool := negb (Qle_bool a b).

(** Lines 241-258, one iteration of the loop over
    [COMMAND_MAPPINGS.items()]. *)
Definition best_match_step (words : list string)
    (best : option loc * Q) (item : string * loc) : Py (option loc * Q) :=
  let '(best_match, best_score) := best in
  let '(phrase, cmd) := item in
  (d <~ deref cmd ;;
   if Dict.has d "modifier" then ret (best_match, best_score)
   else
     let phrase_words := PyStr.split phrase in
     let score := count_matches phrase_words words in
     match length phrase_words with
     | O => raise "division by zero"
     | S _ =>
         let normalized_score := normalize score (length phrase_words) in
         if Qgtb normalized_score best_score && (0 <? score)%nat
         then c <~ dict_copy cmd ;; ret (Some c, normalized_score)
         else ret (best_match, best_score)
     end)%py.

Fixpoint best_match_loop (words : list string) (items : list (string * loc))
    (best : option loc * Q) : Py (option loc * Q) :=
  match items with
  | [] => ret best
  | item :: rest =>
      (best' <~ best_match_step words best item ;;
       best_match_loop words rest best')%py
  end.

Definition parse_command_from_text (text : string) : Py (option loc) :=
  let text := PyStr.strip (PyStr.lower text) in
  (items <~ mappings_items ;;
   match assoc items text with
   | Some l =>
       (* lines 221-224: exact match *)
       command <~ dict_copy l ;;
       ret (Some command)
   | None =>
       let words := PyStr.split text in
       speed_modifier <~ speed_modifier_scan words ;;
       best <~ best_match_loop words items (None, 0%Q) ;;
       match fst best with
       | Some command =>
           d <~ deref command ;;
           if truthy (PDict d) then
             (if truthy speed_modifier
              then dict_setitem command "speed" speed_modifier
              else ret tt) ;;;
             ret (Some command)
           else ret None
       | None => ret None
       end
   end)%py.

(** What a call returns, read through the final heap. *)
Definition returned_value (r : result (option loc) * pystate)
  : result (option dict) :=
  match r with
  | (Ok (Some l), st) =>
      match heap st !! l with
      | Some d => Ok (Some d)
      | None => Raise "dangling reference"
      end
  | (Ok None, _) => Ok None
  | (Raise msg, _) => Raise msg
  end.

Definition run_parse (text : string) : result (option dict) :=
  returned_value (parse_command_from_text text initial_state).

(** ** The matcher on values

    The same algorithm over the table of dictionaries itself, without the
    heap.  [parse_command_from_text_value] shows that a call of
    [parse_command_from_text] in any state that still holds the catalog
    returns a new object whose items are the ones computed here. *)

Module Value.

Fixpoint lookup (items : list (string * dict)) (k : string) : option dict :=
  match items with
  | [] => None
  | (k', d) :: items' => if String.eqb k' k then Some d else lookup items' k
  end.

Fixpoint speed_modifier_scan (items : list (string * dict))
    (words : list string) : result pyvalue :=
  match words with
  | [] => Ok PNone
  | word :: rest =>
      match lookup items word with
      | Some d =>
          if eq_str (default PNone (Dict.get d "modifier")) "speed"
          then match Dict.get d "value" with
               | Some v => Ok v
               | None => Raise ("'" +:+ "value" +:+ "'")
               end
          else speed_modifier_scan items rest
      | None => speed_modifier_scan items rest
      end
  end.

Definition best_match_step (words : list string)
    (best : option dict * Q) (item : string * dict)
  : result (option dict * Q) :=
  if Dict.has (snd item) "modifier" then Ok best
  else
    match length (PyStr.split (fst item)) with
    | O => Raise "division by zero"
    | S _ =>
        if Qgtb (phrase_score (fst item) words) (snd best)
           && (0 <? count_matches (PyStr.split (fst item)) words)%nat
        then Ok (Some (snd item), phrase_score (fst item) words)
        else Ok best
    end.

Fixpoint best_match_loop (words : list string)
    (items : list (string * dict)) (best : option dict * Q)
  : result (option dict * Q) :=
  match items with
  | [] => Ok best
  | item :: rest =>
      match best_match_step words best item with
      | Ok best' => best_match_loop words rest best'
      | Raise msg => Raise msg
      end
  end.

(** Lines 260-268 on the winning copy. *)
Definition compose (speed_modifier : pyvalue) (best_match : option dict)
  : option dict :=
  match best_match with
  | Some d =>
      if truthy (PDict d) then
        Some (if truthy speed_modifier
              then Dict.set d "speed" speed_modifier else d)
      else None
  | None => None
  end.

Definition parse (items : list (string * dict)) (text : string)
  : result (option dict) :=
  let text := PyStr.strip (PyStr.lower text) in
  match lookup items text with
  | Some d => Ok (Some d)
  | None =>
      let words := PyStr.split text in
      match speed_modifier_scan items words with
      | Ok speed_modifier =>
          match best_match_loop words items (None, 0%Q) with
          | Ok best => Ok (compose speed_modifier (fst best))
          | Raise msg => Raise msg
          end
      | Raise msg => Raise msg
      end
  end.

End Value.

(** ** The catalog invariant *)

(** The global still maps the phrases to the objects created at load time,
    and these objects still hold their original items.  Objects created
    later (earlier results, possibly mutated by callers) sit behind them. *)
Definition catalog_intact (st : pystate) : Prop :=
  COMMAND_MAPPINGS st = COMMAND_MAPPINGS initial_state
  /\ heap initial_state `prefix_of` heap st.

(** [l] is none of the objects of the catalog. *)
Definition outside_catalog (l : loc) : Prop :=
  length (heap initial_state) <= l.

(** ** The outside world *)

(** External calls, in the order a run makes them. *)
Inductive event : Type :=
| EPutObject
| EStartJob
| EGetJob
| ESleep (seconds : Z)
| EGetTranscript
| EDeleteJob
| EDeleteObject.

(** What the collaborators answer during one invocation.  A [Raise] is the
    exception the call throws, with [str(e)] as its message. *)
Record world : Type := MkWorld {
  (** [json.loads] *)
  json_loads : string -> result pyvalue;
  (** [base64.b64decode] *)
  b64decode : pyvalue -> result string;
  (** [os.environ['AUDIO_BUCKET']] *)
  environ_AUDIO_BUCKET : result string;
  (** [s3_client.put_object] *)
  put_object : result unit;
  (** [transcribe_client.start_transcription_job] *)
  start_transcription_job : result unit;
  (** [transcribe_client.get_transcription_job], by the number of earlier
      polls: the [TranscriptionJobStatus] of the answer *)
  get_transcription_job : nat -> result string;
  (** lines 181-188: fetching the transcript file and reading the text of
      its first transcript *)
  get_transcript : result string;
  (** [transcribe_client.delete_transcription_job] *)
  delete_transcription_job : result unit;
  (** [s3_client.delete_object] *)
  delete_object : result unit;
  (** [int(time.time())] *)
  time : Z
}.

Record runtime : Type := MkRuntime {
  py : pystate;
  events : list event
}.

Definition IO (A : Type) : Type := world -> runtime -> result A * runtime.

Definition io_ret {A} (a : A) : IO A := fun _ rt => (Ok a, rt).

Definition io_raise {A} (msg : string) : IO A := fun _ rt => (Raise msg, rt).

Definition io_bind {A B} (m : IO A) (k : A -> IO B) : IO B :=
  fun w rt =>
    match m w rt with
    | (Ok a, rt') => k a w rt'
    | (Raise msg, rt') => (Raise msg, rt')
    end.

(** The outcome of a computation that touches no state. *)
Definition io_raise_or {A} (r : result A) : IO A := fun _ rt => (r, rt).

(** [try: m  except Exception as e: h e] *)
Definition try_except {A} (m : IO A) (h : string -> IO A) : IO A :=
  fun w rt =>
    match m w rt with
    | (Ok a, rt') => (Ok a, rt')
    | (Raise msg, rt') => h msg w rt'
    end.

(** [try: m  finally: f], for an [f] that neither returns nor raises. *)
Definition try_finally {A} (m : IO A) (f : IO unit) : IO A :=
  fun w rt =>
    match m w rt with
    | (r, rt') => (r, snd (f w rt'))
    end.

Declare Scope io_scope.
Delimit Scope io_scope with io.
Notation "x <~ m ;; k" := (io_bind m (fun x => k))
  (at level 100, m at next level, right associativity) : io_scope.
Notation "m ;;; k" := (io_bind m (fun _ => k))
  (at level 100, right associativity) : io_scope.

(** A step of the interpreter inside a run of the handler. *)
Definition lift {A} (m : Py A) : IO A :=
  fun _ rt =>
    match m (py rt) with
    | (r, st') => (r, MkRuntime st' (events rt))
    end.

(** An external call: log it and take the world's answer. *)
Definition call {A} (e : event) (answer : world -> result A) : IO A :=
  fun w rt => (answer w, MkRuntime (py rt) (events rt ++ [e])).

Definition is_poll (e : event) : bool :=
  match e with EGetJob => true | _ => false end.

Definition polls (es : list event) : nat :=
  length (List.filter is_poll es).

Definition poll_job : IO string :=
  fun w rt =>
    (get_transcription_job w (polls (events rt)),
     MkRuntime (py rt) (events rt ++ [EGetJob])).

(** ** [transcribe_audio] (source lines 145-211) *)

Definition max_wait_time : Z := 30.
Definition wait_interval : Z := 1.

(** Lines 171-201: the polling loop and the [return None] behind it.
    [Some text] is the [return] at line 191; [None] is what is returned
    when the loop is left by [break] or by its condition. *)
Equations? poll_loop (elapsed_time : Z) (w : world) (rt : runtime)
  : result (option string) * runtime
  by wf (Z.to_nat (max_wait_time - elapsed_time)) lt :=
  poll_loop elapsed_time w rt with Z_lt_dec elapsed_time max_wait_time => {
    | right _ => (Ok None, rt)
    | left _ with poll_job w rt => {
        | (Raise msg, rt1) => (Raise msg, rt1)
        | (Ok status, rt1) with String.eqb status "COMPLETED" => {
            | true with call EGetTranscript get_transcript w rt1 => {
                | (Ok transcript_text, rt2) =>
                    (Ok (Some (PyStr.strip (PyStr.lower transcript_text))), rt2)
                | (Raise msg, rt2) => (Raise msg, rt2) }
            | false with String.eqb status "FAILED" => {
                | true => (Ok None, rt1)
                | false =>
                    poll_loop (elapsed_time + wait_interval) w
                      (MkRuntime (py rt1) (events rt1 ++ [ESleep wait_interval])) } } } }.
Proof. unfold wait_interval, max_wait_time in *. lia. Qed.

Definition transcribe_audio : IO (option string) :=
  try_finally
    (try_except
       (call EStartJob start_transcription_job ;;;
        poll_loop 0%Z)%io
       (fun _ => io_ret None))
    (try_except (call EDeleteJob delete_transcription_job)
                (fun _ => io_ret tt)).

(** ** [process_voice_command] (source lines 95-143) *)

Definition process_voice_command (audio_data rover_ip : pyvalue)
  : IO (option loc) :=
  try_except
    (audio_bytes <~ (fun w => io_raise_or (b64decode w audio_data) w) ;;
     bucket_name <~ (fun w => io_raise_or (environ_AUDIO_BUCKET w) w) ;;
     call EPutObject put_object ;;;
     transcript <~ transcribe_audio ;;
     match transcript with
     | None => io_ret None                      (* [if not transcript] *)
     | Some text =>
         if negb (truthy (PStr text)) then io_ret None
         else
           command <~ lift (parse_command_from_text text) ;;
           match command with
           | Some l =>
               d <~ lift (deref l) ;;
               if truthy (PDict d) && truthy rover_ip
               then lift (dict_setitem l "rover_ip" rover_ip)
               else io_ret tt
           | None => io_ret tt
           end ;;;
           try_except (call EDeleteObject delete_object)
                      (fun _ => io_ret tt) ;;;
           io_ret command
     end)%io
    (fun _ => io_ret None).

(** ** The responses (source lines 273-309) *)

Record response : Type := MkResponse {
  statusCode : Z;
  headers : list (string * string);
  (** the object handed to [json.dumps] *)
  body : pyvalue
}.

Definition cors_headers : list (string * string) :=
  [("Content-Type", "application/json");
   ("Access-Control-Allow-Origin", "*");
   ("Access-Control-Allow-Methods", "POST, OPTIONS");
   ("Access-Control-Allow-Headers", "Content-Type")].

Definition create_success_response (command : dict) : IO response :=
  fun w rt =>
    (Ok (MkResponse 200 cors_headers
           (PDict [("success", PBool true);
                   ("command", PDict command);
                   ("timestamp", PInt (time w))])),
     rt).

Definition create_error_response (status_code : Z) (message : string)
  : IO response :=
  fun w rt =>
    (Ok (MkResponse status_code cors_headers
           (PDict [("success", PBool false);
                   ("error", PStr message);
                   ("timestamp", PInt (time w))])),
     rt).

(** ** [lambda_handler] (source lines 60-93) *)

Fixpoint substring_at (needle s : string) : bool :=
  String.prefix needle s
  || match s with
     | EmptyString => false
     | String _ s' => substring_at needle s'
     end.

(** [key in x] for a string [key]: a key of a dictionary, an element of a
    list, a substring of a string, and a [TypeError] for the rest. *)
Definition py_contains (x : pyvalue) (key : string) : result bool :=
  match x with
  | PDict kvs => Ok (Dict.has kvs key)
  | PList xs => Ok (existsb (fun v => eq_str v key) xs)
  | PStr s => Ok (substring_at key s)
  | PNone => Raise "argument of type 'NoneType' is not iterable"
  | PBool _ => Raise "argument of type 'bool' is not iterable"
  | PInt _ => Raise "argument of type 'int' is not iterable"
  end.

(** [x[key]] for a string [key]. *)
Definition py_getitem (x : pyvalue) (key : string) : result pyvalue :=
  match x with
  | PDict kvs =>
      match Dict.get kvs key with
      | Some v => Ok v
      | None => Raise ("'" +:+ key +:+ "'")
      end
  | PList _ => Raise "list indices must be integers or slices, not str"
  | PStr _ => Raise "string indices must be integers"
  | PNone => Raise "'NoneType' object is not subscriptable"
  | PBool _ => Raise "'bool' object is not subscriptable"
  | PInt _ => Raise "'int' object is not subscriptable"
  end.

(** [x.get(key)]. *)
Definition py_get (x : pyvalue) (key : string) : result pyvalue :=
  match x with
  | PDict kvs => Ok (default PNone (Dict.get kvs key))
  | _ => Raise "object has no attribute 'get'"
  end.

(** Line 71: a body that is a string is decoded as JSON. *)
Definition decode_body (w : world) (event_body : pyvalue) : result pyvalue :=
  match event_body with
  | PStr s => json_loads w s
  | _ => Ok event_body
  end.

Definition lambda_handler (event : dict) : IO response :=
  try_except
    (if negb (Dict.has event "body")
     then create_error_response 400 "Missing request body"
     else
       event_body <~ io_raise_or (py_getitem (PDict event) "body") ;;
       body <~ (fun w => io_raise_or (decode_body w event_body) w) ;;
       has_audio <~ io_raise_or (py_contains body "audio") ;;
       if negb has_audio
       then create_error_response 400 "Missing audio data"
       else
         audio_data <~ io_raise_or (py_getitem body "audio") ;;
         rover_ip <~ io_raise_or (py_get body "rover_ip") ;;
         command <~ process_voice_command audio_data rover_ip ;;
         match command with
         | Some l =>
             d <~ lift (deref l) ;;
             if truthy (PDict d) then create_success_response d
             else create_error_response 400 "No valid command recognized"
         | None => create_error_response 400 "No valid command recognized"
         end)%io
    (fun e => create_error_response 500 ("Internal server error: " +:+ e)).

(** ** Vocabulary of the statements *)

(** The text as the matcher sees it (line 217) and its words (line 227). *)
Definition normalized (text : string) : string :=
  PyStr.strip (PyStr.lower text).

Definition words_of (text : string) : list string :=
  PyStr.split (normalized text).

(** An entry of the kind [{'modifier': ..., 'value': ...}]. *)
Definition is_modifier_entry (d : dict) : bool := Dict.has d "modifier".

(** [word] is a phrase of the catalog whose entry is a speed modifier with
    value [v]. *)
Definition speed_word (word : string) (v : pyvalue) : Prop :=
  exists d, Value.lookup catalog word = Some d
            /\ Dict.get d "modifier" = Some (PStr "speed")
            /\ Dict.get d "value" = Some v.

(** [word] does not stop the speed-modifier scan. *)
Definition plain_word (word : string) : bool :=
  match Value.lookup catalog word with
  | Some d => negb (eq_str (default PNone (Dict.get d "modifier")) "speed")
  | None => true
  end.

(** The text is not a key of the catalog: the exact-match path is not
    taken. *)
Definition no_exact_match (text : string) : Prop :=
  Value.lookup catalog (normalized text) = None.

Fixpoint all_space (s : string) : bool :=
  match s with
  | EmptyString => true
  | String c s' => PyStr.isspace c && all_space s'
  end.

(** The events a run added to the log. *)
Definition new_events (before after : runtime) : list event :=
  drop (length (events before)) (events after).

Definition is_sleep (e : event) : bool :=
  match e with ESleep _ => true | _ => false end.

Definition slept (es : list event) : Z :=
  fold_right (fun e acc => match e with ESleep s => (s + acc)%Z | _ => acc end)
             0%Z es.

(** The body of an error response. *)
Definition error_body (message : string) (w : world) : pyvalue :=
  PDict [("success", PBool false); ("error", PStr message);
         ("timestamp", PInt (time w))].

(** An entry of the global and the entry of the table it was built from. *)
Definition entry_rel (e : string * loc) (v : string * dict) : Prop :=
  fst e = fst v /\ heap initial_state !! snd e = Some (snd v).

(** The running best candidate of both loops: the same score, and the
    object of the heap-level loop is a copy made since the call began
    (at or beyond [n]) holding the items of the value-level candidate. *)
Definition best_rel (n : nat) (st : pystate)
    (b : option loc * Q) (vb : option dict * Q) : Prop :=
  snd b = snd vb
  /\ match fst b, fst vb with
     | Some l, Some d => n <= l /\ heap st !! l = Some d
     | None, None => True
     | _, _ => False
     end.

(** A returned reference against the value it should hold: the object
    is new ([st] is the state before the call) and has these items. *)
Definition result_rel (st st' : pystate)
    (r : result (option loc)) (v : result (option dict)) : Prop :=
  match v, r with
  | Ok (Some d), Ok (Some l) =>
      length (heap st) <= l /\ heap st' !! l = Some d
  | Ok None, Ok None => True
  | Raise msg, Raise msg' => msg = msg'
  | _, _ => False
  end.

(** No object that existed in [st] has changed in [st']. *)
Definition frame (st st' : pystate) : Prop :=
  forall l, l < length (heap st) -> heap st' !! l = heap st !! l.

(** The transcription job as the polls see it, [first] being the number
    of polls made before the loop starts: none of the 30 polls reports
    completion; or one of them reports failure and none before it reports
    completion. *)
Definition job_never_completes (w : world) (first : nat) : Prop :=
  forall k, k < 30 ->
            get_transcription_job w (first + k) <> Ok "COMPLETED".

Definition job_fails (w : world) (first : nat) : Prop :=
  exists k, k < 30
            /\ get_transcription_job w (first + k) = Ok "FAILED"
            /\ forall j, j < k ->
                  get_transcription_job w (first + j) <> Ok "COMPLETED".

(** The request passes the checks of lines 68-79: the event has a body,
    the body (decoded if it is a string) has an audio field, and
    [audio_data] and [rover_ip] are what the handler reads from it. *)
Definition request_audio (w : world) (event : dict)
    (audio_data rover_ip : pyvalue) : Prop :=
  exists event_body body,
    Dict.get event "body" = Some event_body
    /\ decode_body w event_body = Ok body
    /\ py_contains body "audio" = Ok true
    /\ py_getitem body "audio" = Ok audio_data
    /\ py_get body "rover_ip" = Ok rover_ip.

Definition raises {A} (r : result A) : Prop := exists msg, r = Raise msg.

(** ** Sample worlds and requests *)

(** A world in which everything works and the job completes at the
    fourth poll with the given transcript. *)
Definition world_ok (transcript : string) : world :=
  MkWorld (fun _ => Raise "Expecting value: line 1 column 1 (char 0)")
          (fun _ => Ok "RIFF")
          (Ok "rover-audio")
          (Ok tt) (Ok tt)
          (fun k => if (k <? 3)%nat then Ok "IN_PROGRESS" else Ok "COMPLETED")
          (Ok transcript)
          (Ok tt) (Ok tt)
          1700000000.

(** The same world, except that the audio is not valid base64. *)
Definition world_bad_audio : world :=
  MkWorld (json_loads (world_ok ""))
          (fun _ => Raise "Incorrect padding")
          (Ok "rover-audio")
          (Ok tt) (Ok tt)
          (get_transcription_job (world_ok ""))
          (Ok "")
          (Ok tt) (Ok tt)
          1700000000.

(** The same world, except that the job stays in progress for ever. *)
Definition world_slow_job : world :=
  MkWorld (json_loads (world_ok ""))
          (fun _ => Ok "RIFF")
          (Ok "rover-audio")
          (Ok tt) (Ok tt)
          (fun _ => Ok "IN_PROGRESS")
          (Ok "")
          (Ok tt) (Ok tt)
          1700000000.

(** The status of the response a run of the handler returns. *)
Definition statusCode_of (r : result response * runtime) : option Z :=
  match fst r with
  | Ok resp => Some (statusCode resp)
  | Raise _ => None
  end.

Definition request (audio : string) : dict :=
  [("body", PDict [("audio", PStr audio)])].

Definition runtime0 : runtime := MkRuntime initial_state [].

(** While no candidate has been taken the best score is not positive. *)
Definition no_lead (b : option dict * Q) : Prop :=
  fst b = None -> (snd b <= 0)%Q.

(** The first, respectively the last, character of a string is not white
    space (or the string is empty). *)
Definition head_ok (s : string) : bool :=
  match s with
  | EmptyString => true
  | String c _ => negb (PyStr.isspace c)
  end.

Fixpoint last_ok (s : string) : bool :=
  match s with
  | EmptyString => true
  | String c EmptyString => negb (PyStr.isspace c)
  | String _ s' => last_ok s'
  end.

(** The words of the command-template phrases. *)
Definition template_words : list string :=
  ["forward"; "move"; "go"; "backward"; "reverse"; "turn"; "left"; "right";
   "strafe"; "slide"; "stop"; "halt"; "freeze"].

Fixpoint sublists {A} (l : list A) : list (list A) :=
  match l with
  | [] => [[]]
  | x :: l' => map (cons x) (sublists l') ++ sublists l'
  end.

(** The words of the input that matter to the scores. *)
Definition known_words (words : list string) : list string :=
  List.filter (fun w => PyStr.mem w words) template_words.

(** Action and direction of a command. *)
Definition maneuver (d : dict) : option (string * option string) :=
  match Dict.get d "action", Dict.get d "direction" with
  | Some (PStr a), Some (PStr b) => Some (a, Some b)
  | Some (PStr a), Some PNone => Some (a, None)
  | _, _ => None
  end.

(** The maneuvers the best-match loop can end on. *)
Definition scan_maneuvers : list (string * option string) :=
  [("move", Some "forward"); ("move", Some "backward");
   ("turn", Some "left"); ("turn", Some "right");
   ("strafe", Some "left"); ("stop", None)].

Definition maneuver_eqb (m m' : string * option string) : bool :=
  String.eqb (fst m) (fst m')
  && match snd m, snd m' with
     | Some a, Some b => String.eqb a b
     | None, None => true
     | _, _ => false
     end.

Definition scan_winner_ok (r : result (option dict * Q)) : bool :=
  match r with
  | Ok (Some d, _) =>
      match maneuver d with
      | Some m => existsb (maneuver_eqb m) scan_maneuvers
      | None => false
      end
  | Ok (None, _) => true
  | Raise _ => false
  end.

(** [k] rounds of the polling loop that found the job still running: a
    poll and a sleep each. *)
Fixpoint polling_rounds (k : nat) : list event :=
  match k with
  | O => []
  | S k' => EGetJob :: ESleep wait_interval :: polling_rounds k'
  end.

(** A status that neither ends nor breaks the loop. *)
Definition pending (status : string) : bool :=
  negb (String.eqb status "COMPLETED") && negb (String.eqb status "FAILED").

(** The first [k] polls (counted from poll number [first]) answer, and
    find the job pending. *)
Definition job_pending_for (w : world) (first k : nat) : Prop :=
  forall j, j < k ->
            exists status, get_transcription_job w (first + j) = Ok status
                           /\ pending status = true.

(** The events of the polling loop and of fetching the transcript. *)
Definition is_job_event (e : event) : bool :=
  match e with
  | EGetJob | ESleep _ | EGetTranscript => true
  | _ => false
  end.

(** The world with another answer to [delete_transcription_job],
    respectively to [delete_object]. *)
Definition with_delete_job (r : result unit) (w : world) : world :=
  MkWorld (json_loads w) (b64decode w) (environ_AUDIO_BUCKET w)
          (put_object w) (start_transcription_job w)
          (get_transcription_job w) (get_transcript w)
          r (delete_object w) (time w).

Definition with_delete_object (r : result unit) (w : world) : world :=
  MkWorld (json_loads w) (b64decode w) (environ_AUDIO_BUCKET w)
          (put_object w) (start_transcription_job w)
          (get_transcription_job w) (get_transcript w)
          (delete_transcription_job w) r (time w).

(** How many polls, counted from poll number [first] and at most [n],
    find the job pending before one does not. *)
Fixpoint pending_run (w : world) (first n : nat) : nat :=
  match n with
  | O => 0
  | S n' =>
      match get_transcription_job w first with
      | Ok status =>
          if pending status then S (pending_run w (S first) n') else 0
      | Raise _ => 0
      end
  end.

(** The last round of the loop, at a poll that does not find the job
    pending: what is logged and the transcript that comes back. *)
Definition loop_ending (w : world) (poll : nat)
  : list event * option string :=
  match get_transcription_job w poll with
  | Ok status =>
      if String.eqb status "COMPLETED" then
        ([EGetJob; EGetTranscript],
         match get_transcript w with
         | Ok transcript_text => Some (normalized transcript_text)
         | Raise _ => None
         end)
      else ([EGetJob], None)
  | Raise _ => ([EGetJob], None)
  end.

(** The polling of a started job, from poll number [first]: a poll and a
    sleep of [wait_interval] for each poll that finds the job pending,
    then the last round, or nothing more once 30 polls have been made. *)
Definition polling_outcome (w : world) (first : nat)
  : list event * option string :=
  let k := pending_run w first 30 in
  if (k <? 30)%nat
  then (polling_rounds k ++ fst (loop_ending w (first + k)),
        snd (loop_ending w (first + k)))
  else (polling_rounds 30, None).

(** A fault inside the pipeline of [process_voice_command]: decoding the
    audio, reading the bucket name, uploading the blob, starting the
    transcription job, a poll of its status (after [k] polls that found
    the job pending), or fetching and reading the transcript of the
    completed job. *)
Definition pipeline_fault (w : world) (rt : runtime) (audio_data : pyvalue)
  : Prop :=
  raises (b64decode w audio_data)
  \/ raises (environ_AUDIO_BUCKET w)
  \/ raises (put_object w)
  \/ raises (start_transcription_job w)
  \/ (exists k,
        k < 30 /\ job_pending_for w (polls (events rt)) k
        /\ raises (get_transcription_job w (polls (events rt) + k)))
  \/ (exists k,
        k < 30 /\ job_pending_for w (polls (events rt)) k
        /\ get_transcription_job w (polls (events rt) + k) = Ok "COMPLETED"
        /\ raises (get_transcript w)).

(** A body without an audio field: a dictionary without that key, or a
    value that has no fields at all. *)
Definition lacks_audio_field (body : pyvalue) : Prop :=
  match body with
  | PDict kvs => Dict.has kvs "audio" = false
  | _ => True
  end.

(** A world in which the connection drops at the third poll. *)
Definition world_poll_fault : world :=
  MkWorld (json_loads (world_ok ""))
          (fun _ => Ok "RIFF")
          (Ok "rover-audio")
          (Ok tt) (Ok tt)
          (fun k => if (k <? 2)%nat then Ok "IN_PROGRESS"
                    else Raise "Connection was closed before we received a valid response")
          (Ok "")
          (Ok tt) (Ok tt)
          1700000000.

(** A world in which the transcript file of the completed job cannot be
    read. *)
Definition world_fetch_fault : world :=
  MkWorld (json_loads (world_ok ""))
          (fun _ => Ok "RIFF")
          (Ok "rover-audio")
          (Ok tt) (Ok tt)
          (get_transcription_job (world_ok ""))
          (Raise "An error occurred (AccessDenied) when calling the GetObject operation: Access Denied")
          (Ok tt) (Ok tt)
          1700000000.

(** * Proofs *)

(** ** The heap-level matcher computes the value-level one *)

Section Refinement.

Lemma mappings_rel :
  Forall2 entry_rel (COMMAND_MAPPINGS initial_state) catalog.
Proof. repeat constructor. Qed.

Lemma intact_deref st l d :
  catalog_intact st ->
  heap initial_state !! l = Some d ->
  deref l st = (Ok d, st).
Proof.
  intros [_ Hpre] Hl. unfold deref.
  now rewrite (prefix_lookup_Some _ _ _ _ Hl Hpre).
Qed.

Lemma intact_extend st st' :
  catalog_intact st ->
  COMMAND_MAPPINGS st' = COMMAND_MAPPINGS st ->
  heap st `prefix_of` heap st' ->
  catalog_intact st'.
Proof.
  intros [Hm Hpre] Hm' Hext. split; [congruence|].
  now transitivity (heap st).
Qed.

Lemma assoc_rel items vitems k :
  Forall2 entry_rel items vitems ->
  match Value.lookup vitems k with
  | Some d => exists l, assoc items k = Some l
                        /\ heap initial_state !! l = Some d
  | None => assoc items k = None
  end.
Proof.
  induction 1 as [|[p l] [p' d] items vitems [Hp Hl] _ IH]; simpl; [easy|].
  simpl in Hp, Hl. subst p'.
  destruct (String.eqb p k); [now exists l | exact IH].
Qed.

(** The scan reads the catalog only: it leaves the state alone. *)
Lemma speed_modifier_scan_rel st vitems words :
  heap initial_state `prefix_of` heap st ->
  Forall2 entry_rel (COMMAND_MAPPINGS st) vitems ->
  speed_modifier_scan words st
  = (Value.speed_modifier_scan vitems words, st).
Proof.
  intros Hpre Hrel. induction words as [|word rest IH]; simpl; [easy|].
  unfold bind at 1, mappings_items at 1.
  pose proof (assoc_rel _ _ word Hrel) as Ha.
  destruct (Value.lookup vitems word) as [d|].
  - destruct Ha as (l & -> & Hl).
    unfold bind, deref. rewrite (prefix_lookup_Some _ _ _ _ Hl Hpre).
    destruct (eq_str _ _); [|exact IH].
    unfold dict_getitem. now destruct (Dict.get d "value").
  - rewrite Ha. exact IH.
Qed.

Lemma speed_modifier_scan_value st words :
  catalog_intact st ->
  speed_modifier_scan words st
  = (Value.speed_modifier_scan catalog words, st).
Proof.
  intros [Hm Hpre]. apply speed_modifier_scan_rel; [easy|].
  rewrite Hm. exact mappings_rel.
Qed.

Lemma best_rel_extend n st st' b vb :
  best_rel n st b vb -> heap st `prefix_of` heap st' ->
  best_rel n st' b vb.
Proof.
  intros [Hq Hb] Hext. split; [easy|].
  destruct (fst b), (fst vb); try easy.
  destruct Hb as [Hn Hl]. split; [easy|].
  now apply (prefix_lookup_Some _ _ _ _ Hl Hext).
Qed.

Lemma best_match_step_value n words st b vb e v :
  catalog_intact st -> n <= length (heap st) ->
  entry_rel e v -> best_rel n st b vb ->
  exists st',
    COMMAND_MAPPINGS st' = COMMAND_MAPPINGS st
    /\ heap st `prefix_of` heap st'
    /\ match Value.best_match_step words vb v with
       | Ok vb' => exists b', best_match_step words b e st = (Ok b', st')
                              /\ best_rel n st' b' vb'
       | Raise msg => best_match_step words b e st = (Raise msg, st')
       end.
Proof.
  intros Hst Hn [Hp Hl] Hb.
  destruct e as [phrase cmd], v as [phrase' d], b as [bm bs], vb as [vm vs].
  cbn [fst snd] in Hp, Hl. subst phrase'.
  destruct Hb as [Hq Hb]. cbn [fst snd] in Hq, Hb. subst vs.
  unfold best_match_step, Value.best_match_step, bind. cbn [fst snd].
  rewrite (intact_deref st cmd d Hst Hl).
  destruct (Dict.has d "modifier").
  { exists st. do 2 (split; [reflexivity|]). exists (bm, bs). now split. }
  destruct (length (PyStr.split phrase)) eqn:Hlen.
  { exists st. now do 2 (split; [reflexivity|]). }
  rewrite <- Hlen. fold (phrase_score phrase words).
  destruct (Qgtb _ _ && _).
  - unfold dict_copy, bind, alloc. rewrite (intact_deref st cmd d Hst Hl).
    exists (MkState (COMMAND_MAPPINGS st) (heap st ++ [d])).
    split; [reflexivity|]. split.
    + cbn [heap]. now apply prefix_app_r.
    + eexists. split; [reflexivity|]. split; [reflexivity|]. cbn [fst snd heap].
      split; [easy|]. now rewrite lookup_app_r, Nat.sub_diag.
  - exists st. do 2 (split; [reflexivity|]). exists (bm, bs). now split.
Qed.

Lemma best_match_loop_cons words e rest b st :
  best_match_loop words (e :: rest) b st
  = match best_match_step words b e st with
    | (Ok b', st') => best_match_loop words rest b' st'
    | (Raise msg, st') => (Raise msg, st')
    end.
Proof. reflexivity. Qed.

Lemma best_match_loop_value n words items vitems :
  Forall2 entry_rel items vitems ->
  forall st b vb,
    catalog_intact st -> n <= length (heap st) -> best_rel n st b vb ->
    exists st',
      COMMAND_MAPPINGS st' = COMMAND_MAPPINGS st
      /\ heap st `prefix_of` heap st'
      /\ match Value.best_match_loop words vitems vb with
         | Ok vb' => exists b', best_match_loop words items b st = (Ok b', st')
                                /\ best_rel n st' b' vb'
         | Raise msg => best_match_loop words items b st = (Raise msg, st')
         end.
Proof.
  induction 1 as [|e v items vitems Hev _ IH]; intros st b vb Hst Hn Hb.
  { exists st. do 2 (split; [reflexivity|]). now exists b. }
  destruct (best_match_step_value n words st b vb e v Hst Hn Hev Hb)
    as (st1 & Hm1 & Hext1 & Hstep).
  rewrite best_match_loop_cons. cbn [Value.best_match_loop].
  destruct (Value.best_match_step words vb v) as [vb1|msg].
  - destruct Hstep as (b1 & -> & Hb1).
    assert (Hst1 : catalog_intact st1) by now apply (intact_extend st).
    assert (Hn1 : n <= length (heap st1)).
    { apply prefix_length in Hext1. lia. }
    destruct (IH st1 b1 vb1 Hst1 Hn1 Hb1) as (st2 & Hm2 & Hext2 & Hloop).
    exists st2. split; [congruence|]. split; [now transitivity (heap st1)|].
    exact Hloop.
  - rewrite Hstep. exists st1. now do 2 (split; [assumption|]).
Qed.

End Refinement.

Section ParseValue.

Lemma prefix_frame st st' :
  heap st `prefix_of` heap st' -> frame st st'.
Proof. intros [k Hk] l Hl. rewrite Hk. now apply lookup_app_l. Qed.

Lemma parse_command_from_text_value text st :
  catalog_intact st ->
  exists r st',
    parse_command_from_text text st = (r, st')
    /\ catalog_intact st' /\ frame st st'
    /\ result_rel st st' r (Value.parse catalog text).
Proof.
  intros Hst. pose proof Hst as [Hm Hpre].
  unfold parse_command_from_text, Value.parse.
  unfold bind at 1, mappings_items at 1.
  pose proof (assoc_rel _ _ (PyStr.strip (PyStr.lower text)) mappings_rel) as Ha.
  rewrite Hm.
  destruct (Value.lookup catalog _) as [d|].
  - (* exact match *)
    destruct Ha as (l & -> & Hl).
    unfold bind, dict_copy, bind, alloc, ret.
    rewrite (intact_deref st l d Hst Hl).
    eexists _, _. split; [reflexivity|]. split; [|split].
    + apply (intact_extend st); [easy|reflexivity|]. now apply prefix_app_r.
    + apply prefix_frame. now apply prefix_app_r.
    + split; [reflexivity|].
      cbn [heap]. now rewrite lookup_app_r, Nat.sub_diag.
  - (* scan and best match *)
    rewrite Ha. unfold bind at 1.
    rewrite (speed_modifier_scan_value st _ Hst).
    destruct (Value.speed_modifier_scan catalog _) as [v|msg].
    2:{ eexists _, _. split; [reflexivity|]. split; [easy|]. split; [easy|]. now unfold result_rel. }
    unfold bind at 1. rewrite <- Hm.
    destruct (best_match_loop_value (length (heap st))
                (PyStr.split (PyStr.strip (PyStr.lower text)))
                (COMMAND_MAPPINGS st) catalog
                ltac:(rewrite Hm; exact mappings_rel)
                st (None, 0%Q) (None, 0%Q) Hst (le_n _)
                ltac:(now split))
      as (st1 & Hm1 & Hext1 & Hloop).
    assert (Hst1 : catalog_intact st1) by now apply (intact_extend st).
    pose proof (prefix_frame st st1 Hext1) as Hfr1.
    destruct (Value.best_match_loop _ catalog _) as [[vm vs]|msg].
    2:{ rewrite Hloop. eexists _, _. split; [reflexivity|]. split; [easy|]. split; [easy|]. now unfold result_rel. }
    destruct Hloop as ([bm bs] & -> & _ & Hb). cbn [fst snd] in Hb |- *.
    destruct bm as [l|], vm as [d|]; try easy.
    2:{ eexists _, _. split; [reflexivity|]. split; [easy|]. split; [easy|]. now unfold result_rel. }
    destruct Hb as [Hn Hl]. unfold bind at 1, deref at 1. rewrite Hl.
    unfold Value.compose.
    destruct (truthy (PDict d)).
    2:{ eexists _, _. split; [reflexivity|]. split; [easy|]. split; [easy|]. now unfold result_rel. }
    unfold bind at 1. destruct (truthy v).
    + unfold dict_setitem. rewrite Hl. unfold ret.
      eexists _, _. split; [reflexivity|]. split; [|split].
      * split; [now destruct Hst1|]. cbn [heap].
        destruct Hst1 as [_ [k Hk]]. rewrite Hk.
        assert (length (heap initial_state) <= l).
        { destruct Hpre as [k0 Hk0]. rewrite Hk0, length_app in Hn. lia. }
        rewrite insert_app_r_alt by easy. now apply prefix_app_r.
      * intros l' Hl'. cbn [heap].
        rewrite list_lookup_insert_ne by lia. now apply Hfr1.
      * split; [easy|]. cbn [heap].
        apply list_lookup_insert_eq. now apply lookup_lt_Some in Hl.
    + unfold ret. eexists _, _. split; [reflexivity|]. split; [easy|]. split; [easy|]. now unfold result_rel.
Qed.

(** The value returned, read through the final heap. *)
Lemma returned_value_parse text st :
  catalog_intact st ->
  returned_value (parse_command_from_text text st) = Value.parse catalog text.
Proof.
  intros Hst.
  destruct (parse_command_from_text_value text st Hst)
    as (r & st' & -> & _ & _ & H).
  unfold result_rel in H. unfold returned_value.
  destruct (Value.parse catalog text) as [[d|]|msg], r as [[l|]|msg'];
    try easy.
  - destruct H as [_ ->]. reflexivity.
  - now subst.
Qed.

End ParseValue.

(** ** Facts about the catalog, checked entry by entry *)

Section CatalogFacts.

Lemma lookup_In items k d :
  Value.lookup items k = Some d -> In (k, d) items.
Proof.
  induction items as [|[k' d'] items IH]; simpl; [easy|].
  destruct (String.eqb k' k) eqn:Hk.
  - apply String.eqb_eq in Hk. intros [= ->]. left. now subst.
  - intros H. right. now apply IH.
Qed.

(** Every phrase is already lower case and trimmed, and is the first
    (hence only) entry under its key. *)
Lemma catalog_keys :
  Forall (fun e => normalized (fst e) = fst e
                   /\ Value.lookup catalog (fst e) = Some (snd e)) catalog.
Proof. repeat (constructor; [split; vm_compute; reflexivity|]). constructor. Qed.

(** Every phrase has one or two words: the division at line 254 is
    defined and exact. *)
Lemma catalog_phrase_lengths :
  Forall (fun e => length (PyStr.split (fst e)) = 1
                   \/ length (PyStr.split (fst e)) = 2) catalog.
Proof.
  repeat (constructor;
          [first [left; vm_compute; reflexivity | right; vm_compute; reflexivity]|]).
  constructor.
Qed.

(** An entry is a command template, with exactly the three fields, or a
    speed modifier with a non-empty value. *)
Lemma catalog_shapes :
  Forall (fun e =>
            (is_modifier_entry (snd e) = false
             /\ Dict.keys (snd e) = ["action"; "direction"; "speed"]
             /\ eq_str (default PNone (Dict.get (snd e) "modifier")) "speed"
                = false)
            \/ (is_modifier_entry (snd e) = true
                /\ exists v, snd e = modifier v /\ v <> ""))
         catalog.
Proof.
  repeat (constructor;
          [first [left; repeat split; reflexivity
                 | right; split; [reflexivity|];
                   eexists; split; [reflexivity|discriminate]]|]).
  constructor.
Qed.

Lemma catalog_entry p d :
  In (p, d) catalog ->
  normalized p = p /\ Value.lookup catalog p = Some d
  /\ length (PyStr.split p) <> 0.
Proof.
  intros Hin.
  pose proof (proj1 (List.Forall_forall _ _) catalog_keys _ Hin) as [H1 H2].
  pose proof (proj1 (List.Forall_forall _ _) catalog_phrase_lengths _ Hin) as H3.
  cbn [fst snd] in *. repeat split; [easy..|]. lia.
Qed.

Lemma catalog_shape p d :
  In (p, d) catalog ->
  (is_modifier_entry d = false
   /\ Dict.keys d = ["action"; "direction"; "speed"]
   /\ eq_str (default PNone (Dict.get d "modifier")) "speed" = false)
  \/ (is_modifier_entry d = true /\ exists v, d = modifier v /\ v <> "").
Proof.
  intros Hin.
  exact (proj1 (List.Forall_forall _ _) catalog_shapes _ Hin).
Qed.

End CatalogFacts.

(** ** Scores *)

Section Scores.

Lemma Qgtb_true a b : Qgtb a b = true <-> (b < a)%Q.
Proof.
  unfold Qgtb. rewrite negb_true_iff. split.
  - intros H. apply Qnot_le_lt. intros Hle.
    apply Qle_bool_iff in Hle. congruence.
  - intros H. destruct (Qle_bool a b) eqn:E; [|reflexivity].
    apply Qle_bool_iff in E. exfalso. exact (Qlt_not_le _ _ H E).
Qed.

Lemma Qgtb_false a b : Qgtb a b = false <-> (a <= b)%Q.
Proof.
  unfold Qgtb. rewrite negb_false_iff. apply Qle_bool_iff.
Qed.

(** A positive quotient has a positive numerator (and, the quotient by
    zero being zero here, a non-zero denominator). *)
Lemma normalize_pos score len :
  (0 < normalize score len)%Q -> 0 < score /\ len <> 0.
Proof.
  unfold normalize, Qdiv, Qlt, Qmult, Qinv, inject_Z. simpl.
  destruct len as [|len]; simpl; [lia|].
  destruct score as [|score]; simpl; lia.
Qed.

Lemma normalize_zero len : (normalize 0 len == 0)%Q.
Proof. unfold normalize, Qdiv. simpl. apply Qmult_0_l. Qed.

Lemma count_matches_none (phrase_words words : list string) :
  (forall w, In w phrase_words -> PyStr.mem w words = false) ->
  count_matches phrase_words words = 0.
Proof.
  induction phrase_words as [|w ws IH]; simpl; [easy|]. intros H.
  rewrite (H w) by now left. simpl. apply IH. intros w' Hw'. apply H. now right.
Qed.

End Scores.

(** ** The loops on values *)

Section ValueLoops.

Variable words : list string.

Lemma value_loop_app xs ys b :
  Value.best_match_loop words (xs ++ ys) b
  = match Value.best_match_loop words xs b with
    | Ok b' => Value.best_match_loop words ys b'
    | Raise msg => Raise msg
    end.
Proof.
  revert b. induction xs as [|x xs IH]; intros b; simpl; [easy|].
  destruct (Value.best_match_step words b x); [apply IH|easy].
Qed.

(** Entries that score below [q] leave the running best below [q]. *)
Lemma value_loop_below (q : Q) xs :
  Forall (fun e => length (PyStr.split (fst e)) <> 0) xs ->
  Forall (fun e => is_modifier_entry (snd e) = false ->
                   (phrase_score (fst e) words < q)%Q) xs ->
  forall b, (snd b < q)%Q ->
  exists b', Value.best_match_loop words xs b = Ok b' /\ (snd b' < q)%Q.
Proof.
  induction xs as [|x xs IH]; intros Hne Hlt b Hb; simpl; [now exists b|].
  apply Forall_cons in Hne as [Hx Hne]. apply Forall_cons in Hlt as [Hxq Hlt].
  unfold Value.best_match_step. unfold is_modifier_entry in Hxq.
  destruct (Dict.has (snd x) "modifier"); [now apply IH|].
  destruct (length (PyStr.split (fst x))); [easy|].
  destruct (Qgtb _ _ && _); apply IH; auto.
Qed.

(** Entries that do not score above the running best leave it alone. *)
Lemma value_loop_keep xs :
  Forall (fun e => length (PyStr.split (fst e)) <> 0) xs ->
  forall b,
  Forall (fun e => is_modifier_entry (snd e) = false ->
                   (phrase_score (fst e) words <= snd b)%Q
                   \/ count_matches (PyStr.split (fst e)) words = 0) xs ->
  Value.best_match_loop words xs b = Ok b.
Proof.
  induction xs as [|x xs IH]; intros Hne b Hle; simpl; [easy|].
  apply Forall_cons in Hne as [Hx Hne]. apply Forall_cons in Hle as [Hxq Hle].
  unfold Value.best_match_step. unfold is_modifier_entry in Hxq.
  destruct (Dict.has (snd x) "modifier"); [now apply IH|].
  destruct (length (PyStr.split (fst x))); [easy|].
  destruct (Hxq eq_refl) as [H|H].
  - apply Qgtb_false in H. rewrite H. now apply IH.
  - rewrite H, andb_false_r. now apply IH.
Qed.

(** The entry that takes the lead. *)
Lemma value_step_win b p d :
  Dict.has d "modifier" = false ->
  (0 < phrase_score p words)%Q ->
  (snd b < phrase_score p words)%Q ->
  Value.best_match_step words b (p, d) = Ok (Some d, phrase_score p words).
Proof.
  intros Hd Hpos Hb. unfold Value.best_match_step. cbn [fst snd]. rewrite Hd.
  apply normalize_pos in Hpos as [Hc Hlen].
  destruct (length (PyStr.split p)); [easy|].
  apply Qgtb_true in Hb. rewrite Hb.
  apply Nat.ltb_lt in Hc. now rewrite Hc.
Qed.

(** The first phrase with the highest positive score wins. *)
Lemma value_loop_first_max pre p d post :
  Forall (fun e => length (PyStr.split (fst e)) <> 0) (pre ++ (p, d) :: post) ->
  Dict.has d "modifier" = false ->
  (0 < phrase_score p words)%Q ->
  Forall (fun e => is_modifier_entry (snd e) = false ->
                   (phrase_score (fst e) words < phrase_score p words)%Q) pre ->
  Forall (fun e => is_modifier_entry (snd e) = false ->
                   (phrase_score (fst e) words <= phrase_score p words)%Q) post ->
  Value.best_match_loop words (pre ++ (p, d) :: post) (None, 0%Q)
  = Ok (Some d, phrase_score p words).
Proof.
  intros Hne Hd Hpos Hpre Hpost.
  apply Forall_app in Hne as [Hne1 Hne2].
  apply Forall_cons in Hne2 as [_ Hne2].
  rewrite value_loop_app.
  destruct (value_loop_below _ pre Hne1 Hpre (None, 0%Q) Hpos) as (b & -> & Hb).
  cbn [Value.best_match_loop]. rewrite (value_step_win b p d Hd Hpos Hb).
  apply value_loop_keep; [easy|].
  eapply Forall_impl; [exact Hpost|]. cbn [snd]. intros e He Hm. left. auto.
Qed.

(** The winner, if any, is a command template of the table. *)
Lemma value_loop_winner xs b b' :
  Value.best_match_loop words xs b = Ok b' ->
  fst b' = fst b
  \/ exists p d, In (p, d) xs /\ is_modifier_entry d = false
                 /\ fst b' = Some d.
Proof.
  revert b. induction xs as [|[p d] xs IH]; intros b; simpl.
  { intros [= ->]. now left. }
  unfold Value.best_match_step. cbn [fst snd].
  destruct (Dict.has d "modifier") eqn:Hd.
  { intros H. destruct (IH _ H) as [?|(p' & d' & ? & ?)]; [now left|].
    right. exists p', d'. split; [now right|easy]. }
  destruct (length (PyStr.split p)); [easy|].
  destruct (Qgtb _ _ && _); intros H;
    (destruct (IH _ H) as [Hb|(p' & d' & ? & ?)];
     [|right; exists p', d'; split; [now right|easy]]).
  - right. exists p, d. split; [now left|]. now split.
  - now left.
Qed.

(** With no division by zero in sight, the loop raises nothing. *)
Lemma value_loop_ok xs :
  Forall (fun e => length (PyStr.split (fst e)) <> 0) xs ->
  forall b, exists b', Value.best_match_loop words xs b = Ok b'.
Proof.
  induction xs as [|x xs IH]; intros Hne b; simpl; [now exists b|].
  apply Forall_cons in Hne as [Hx Hne].
  unfold Value.best_match_step.
  destruct (Dict.has (snd x) "modifier"); [now apply IH|].
  destruct (length (PyStr.split (fst x))); [easy|].
  destruct (Qgtb _ _ && _); now apply IH.
Qed.

End ValueLoops.

(** ** Dictionaries and white space *)

Section DictFacts.

Lemma has_keys d k :
  Dict.has d k = existsb (fun k' => String.eqb k' k) (Dict.keys d).
Proof.
  unfold Dict.has. induction d as [|[k' v] d IH]; simpl; [easy|].
  now destruct (String.eqb k' k).
Qed.

Lemma keys_set d k v :
  Dict.has d k = true -> Dict.keys (Dict.set d k v) = Dict.keys d.
Proof.
  unfold Dict.has, Dict.keys.
  induction d as [|[k' v'] d IH]; simpl; [easy|].
  destruct (String.eqb k' k); [easy|]. intros H. simpl. f_equal. now apply IH.
Qed.

Lemma get_set d k v : Dict.get (Dict.set d k v) k = Some v.
Proof.
  induction d as [|[k' v'] d IH]; simpl.
  - now rewrite String.eqb_refl.
  - destruct (String.eqb k' k) eqn:E; simpl; now rewrite E.
Qed.

Lemma template_shape d :
  Dict.keys d = ["action"; "direction"; "speed"] ->
  Dict.has d "speed" = true /\ Dict.has d "modifier" = false
  /\ Dict.has d "value" = false /\ truthy (PDict d) = true.
Proof.
  intros H. rewrite !has_keys, H. repeat split.
  destruct d; [discriminate|reflexivity].
Qed.

End DictFacts.

Section WhiteSpace.

Lemma isspace_lower c :
  PyStr.isspace c = true -> PyStr.lower_char c = c.
Proof.
  destruct c as [[] [] [] [] [] [] [] []]; vm_compute;
    first [reflexivity | discriminate].
Qed.

Lemma lower_all_space s :
  all_space s = true -> PyStr.lower s = s.
Proof.
  induction s as [|c s IH]; simpl; [easy|].
  intros [Hc Hs]%andb_prop. now rewrite (isspace_lower c Hc), IH.
Qed.

Lemma lstrip_all_space s :
  all_space s = true -> PyStr.lstrip s = "".
Proof.
  induction s as [|c s IH]; simpl; [easy|].
  intros [Hc Hs]%andb_prop. rewrite Hc. now apply IH.
Qed.

(** Text made of white space only is normalized to the empty string. *)
Lemma normalized_all_space s :
  all_space s = true -> normalized s = "".
Proof.
  intros H. unfold normalized, PyStr.strip.
  now rewrite (lower_all_space s H), (lstrip_all_space s H).
Qed.

End WhiteSpace.

(** ** The speed-modifier scan on values *)

Section ValueScan.

Lemma speed_word_value m v :
  speed_word m v -> exists s, v = PStr s /\ s <> "" /\ truthy v = true.
Proof.
  intros (d & Hl & Hm & Hv). apply lookup_In in Hl.
  destruct (catalog_shape m d Hl) as [(Ht & _ & _)|(_ & s & -> & Hs)].
  - unfold is_modifier_entry, Dict.has in Ht. now rewrite Hm in Ht.
  - simpl in Hv. injection Hv as <-. exists s. repeat split; [easy|].
    simpl. destruct s; [easy|reflexivity].
Qed.

(** The scan stops at the first speed word, whatever follows it. *)
Lemma value_scan_first w1 m v w2 :
  forallb plain_word w1 = true -> speed_word m v ->
  Value.speed_modifier_scan catalog (w1 ++ m :: w2) = Ok v.
Proof.
  intros Hw1 (d & Hl & Hm & Hv).
  induction w1 as [|w w1 IH]; cbn [app Value.speed_modifier_scan].
  - now rewrite Hl, Hm, Hv.
  - cbn [forallb] in Hw1. apply andb_prop in Hw1 as [Hw Hw1].
    unfold plain_word in Hw.
    destruct (Value.lookup catalog w); [|now apply IH].
    apply negb_true_iff in Hw. rewrite Hw. now apply IH.
Qed.

(** The scan raises nothing, and what it finds is [None] or a non-empty
    string. *)
Lemma value_scan_ok words :
  exists v, Value.speed_modifier_scan catalog words = Ok v
            /\ (v = PNone \/ exists s, v = PStr s /\ truthy v = true).
Proof.
  induction words as [|w words IH]; cbn [Value.speed_modifier_scan].
  { exists PNone. split; [easy|now left]. }
  destruct (Value.lookup catalog w) as [d|] eqn:Hl; [|exact IH].
  apply lookup_In in Hl.
  destruct (catalog_shape w d Hl) as [(_ & _ & ->)|(_ & s & -> & Hs)];
    [exact IH|].
  exists (PStr s). split; [reflexivity|]. right. exists s. split; [easy|].
  simpl. destruct s; [easy|reflexivity].
Qed.

End ValueScan.

(** ** The matcher: what a call returns *)

Section Matcher.

Lemma catalog_nonempty_phrases :
  Forall (fun e : string * dict => length (PyStr.split (fst e)) <> 0) catalog.
Proof.
  eapply Forall_impl; [exact catalog_phrase_lengths|].
  intros e He. cbv beta in *. lia.
Qed.

(** Off the exact-match path the call raises nothing, and its value is
    composed from the scan and the loop. *)
Lemma value_parse_no_exact text :
  no_exact_match text ->
  exists v b,
    Value.speed_modifier_scan catalog (words_of text) = Ok v
    /\ Value.best_match_loop (words_of text) catalog (None, 0%Q) = Ok b
    /\ Value.parse catalog text = Ok (Value.compose v (fst b)).
Proof.
  intros Hno. unfold Value.parse. unfold no_exact_match, normalized in Hno.
  rewrite Hno. fold (normalized text). fold (words_of text).
  destruct (value_scan_ok (words_of text)) as (v & Hv & _).
  destruct (value_loop_ok (words_of text) catalog catalog_nonempty_phrases
              (None, 0%Q)) as (b & Hb).
  exists v, b. rewrite Hv, Hb. repeat split.
Qed.

End Matcher.

(** C1, as the code behaves.  When the normalized text is a phrase of the
    catalog mapped to a speed modifier, the exact-match path (lines
    221-224) returns a copy of that modifier entry,
    [{'modifier': 'speed', 'value': v}]: the call does not return [None].
    The best-match scan skips such entries (line 242); the exact-match
    path does not look at the kind of the entry. *)
Theorem bare_speed_word_returns_modifier_entry st text d :
  catalog_intact st ->
  Value.lookup catalog (normalized text) = Some d ->
  is_modifier_entry d = true ->
  exists v, d = modifier v
            /\ returned_value (parse_command_from_text text st)
               = Ok (Some (modifier v)).
Proof.
  intros Hst Hl Hm. pose proof (lookup_In _ _ _ Hl) as Hin.
  destruct (catalog_shape _ d Hin) as [(Ht & _)|(_ & v & -> & _)];
    [congruence|].
  exists v. split; [reflexivity|].
  rewrite (returned_value_parse text st Hst). unfold Value.parse.
  fold (normalized text). now rewrite Hl.
Qed.

Lemma bare_speed_word_returns_modifier_entry_witness :
  returned_value (parse_command_from_text "fast" initial_state)
  = Ok (Some [("modifier", PStr "speed"); ("value", PStr "fast")]).
Proof.
  destruct (bare_speed_word_returns_modifier_entry initial_state "fast"
              (modifier "fast")) as (v & Hv & Hr).
  - split; reflexivity.
  - vm_compute. reflexivity.
  - vm_compute. reflexivity.
  - injection Hv as <-. exact Hr.
Defined.

(** C6.  When the normalized text is not a phrase of the catalog and no
    command-template phrase shares a word with the words of the input,
    every phrase scores zero and the call returns [None].  In particular
    the empty text and any text made of white space only give [None]. *)
Theorem no_shared_word_no_command :
  (forall st text,
      catalog_intact st ->
      no_exact_match text ->
      (forall p d w, In (p, d) catalog -> is_modifier_entry d = false ->
                     In w (PyStr.split p) ->
                     PyStr.mem w (words_of text) = false) ->
      returned_value (parse_command_from_text text st) = Ok None)
  /\ (forall st text,
         catalog_intact st -> all_space text = true ->
         returned_value (parse_command_from_text text st) = Ok None).
Proof.
  split.
  - intros st text Hst Hno Hshare.
    rewrite (returned_value_parse text st Hst).
    destruct (value_parse_no_exact text Hno) as (v & b & _ & Hb & ->).
    rewrite value_loop_keep in Hb.
    + injection Hb as <-. reflexivity.
    + exact catalog_nonempty_phrases.
    + apply List.Forall_forall. intros [p d] Hin Hm. right. cbn [fst snd] in *.
      apply count_matches_none. intros w Hw. now apply (Hshare p d).
  - intros st text Hst Hsp.
    rewrite (returned_value_parse text st Hst).
    unfold Value.parse. fold (normalized text).
    rewrite (normalized_all_space text Hsp). vm_compute. reflexivity.
Qed.

Lemma no_shared_word_no_command_witness :
  returned_value (parse_command_from_text "Hello there" initial_state) = Ok None
  /\ returned_value (parse_command_from_text "" initial_state) = Ok None
  /\ returned_value
       (parse_command_from_text (String " " (String "009" " ")) initial_state)
     = Ok None.
Proof.
  destruct no_shared_word_no_command as [Hwords Hspace].
  assert (Hst : catalog_intact initial_state) by (split; reflexivity).
  split; [|split].
  - apply (Hwords initial_state "Hello there" Hst); [reflexivity|].
    intros p d w Hin.
    repeat (destruct Hin as [[= <- <-]|Hin];
            [intros Hm Hw; try discriminate Hm;
             vm_compute in Hw; intuition (subst; reflexivity)|]).
    destruct Hin.
  - apply (Hspace initial_state "" Hst). reflexivity.
  - apply (Hspace initial_state _ Hst). reflexivity.
Defined.

(** C7.  The speed modifier is the value of the first word, in input
    order, that is a speed-modifier phrase of the catalog: the scan stops
    there, so the words after it ([w2], whatever they are) play no part,
    and this value is the [speed] of the command composed from a
    best match. *)
Theorem first_speed_word_wins st w1 m w2 v :
  catalog_intact st ->
  forallb plain_word w1 = true ->
  speed_word m v ->
  speed_modifier_scan (w1 ++ m :: w2) st = (Ok v, st)
  /\ forall text d,
       no_exact_match text ->
       words_of text = w1 ++ m :: w2 ->
       returned_value (parse_command_from_text text st) = Ok (Some d) ->
       Dict.get d "speed" = Some v.
Proof.
  intros Hst Hw1 Hm.
  pose proof (value_scan_first w1 m v w2 Hw1 Hm) as Hscan. split.
  - now rewrite (speed_modifier_scan_value st _ Hst), Hscan.
  - intros text d Hno Hwords Hret.
    rewrite (returned_value_parse text st Hst) in Hret.
    destruct (value_parse_no_exact text Hno) as (v' & b & Hv' & _ & Hp).
    rewrite Hwords, Hscan in Hv'. injection Hv' as <-.
    rewrite Hp in Hret. injection Hret as Hret.
    unfold Value.compose in Hret.
    destruct (fst b) as [t|]; [|discriminate].
    destruct (truthy (PDict t)); [|discriminate].
    destruct (speed_word_value m v Hm) as (s & _ & _ & Htr).
    rewrite Htr in Hret. injection Hret as <-. apply get_set.
Qed.

Lemma first_speed_word_wins_witness :
  speed_modifier_scan ["forward"; "fast"; "slowly"] initial_state
  = (Ok (PStr "fast"), initial_state)
  /\ returned_value (parse_command_from_text "forward fast slowly" initial_state)
     = Ok (Some (template "move" (PStr "forward") (PStr "fast")))
  /\ Dict.get (template "move" (PStr "forward") (PStr "fast")) "speed"
     = Some (PStr "fast").
Proof.
  assert (Hst : catalog_intact initial_state) by (split; reflexivity).
  assert (Hm : speed_word "fast" (PStr "fast")).
  { exists (modifier "fast"). repeat split; reflexivity. }
  destruct (first_speed_word_wins initial_state ["forward"] "fast" ["slowly"]
              (PStr "fast") Hst eq_refl Hm) as [Hscan Hspeed].
  split; [exact Hscan|].
  assert (Hret : returned_value
                   (parse_command_from_text "forward fast slowly" initial_state)
                 = Ok (Some (template "move" (PStr "forward") (PStr "fast"))))
    by (vm_compute; reflexivity).
  split; [exact Hret|].
  exact (Hspeed "forward fast slowly" _ eq_refl eq_refl Hret).
Defined.

(** C10.  A command that comes out of the best-match scan (the normalized
    text is not a phrase of the catalog) is a new object, none of the
    catalog's, holding the items of some command-template entry with at
    most the speed overwritten: its fields are exactly action, direction
    and speed, and it has no modifier or value field. *)
Theorem best_match_result_is_template_copy st text l st' :
  catalog_intact st ->
  no_exact_match text ->
  parse_command_from_text text st = (Ok (Some l), st') ->
  length (heap st) <= l /\ outside_catalog l
  /\ exists d,
       heap st' !! l = Some d
       /\ Dict.keys d = ["action"; "direction"; "speed"]
       /\ Dict.has d "modifier" = false
       /\ Dict.has d "value" = false
       /\ exists p t,
            In (p, t) catalog /\ is_modifier_entry t = false
            /\ (d = t \/ exists v, d = Dict.set t "speed" v).
Proof.
  intros Hst Hno Hrun.
  destruct (parse_command_from_text_value text st Hst)
    as (r & st1 & Hrun' & _ & _ & Hrel).
  rewrite Hrun in Hrun'. injection Hrun' as <- <-.
  destruct (value_parse_no_exact text Hno) as (v & b & _ & Hb & Hp).
  rewrite Hp in Hrel. unfold result_rel in Hrel.
  destruct (Value.compose v (fst b)) as [d|] eqn:Hc; [|easy].
  destruct Hrel as [Hl Hd]. split; [exact Hl|]. split.
  { unfold outside_catalog. destruct Hst as [_ Hpre].
    apply prefix_length in Hpre. lia. }
  exists d. split; [exact Hd|].
  destruct (value_loop_winner _ _ _ _ Hb) as [Hnone|(p & t & Hin & Hm & Ht)].
  { cbn [fst] in Hnone. now rewrite Hnone in Hc. }
  rewrite Ht in Hc. unfold Value.compose in Hc.
  destruct (catalog_shape p t Hin) as [(_ & Hk & _)|(Hm' & _)]; [|congruence].
  destruct (template_shape t Hk) as (Hsp & Hmo & Hva & Htr).
  rewrite Htr in Hc. injection Hc as <-.
  assert (Hkeys : Dict.keys (if truthy v then Dict.set t "speed" v else t)
                  = ["action"; "direction"; "speed"]).
  { destruct (truthy v); [now rewrite keys_set|easy]. }
  split; [exact Hkeys|].
  destruct (template_shape _ Hkeys) as (_ & Hmo' & Hva' & _).
  split; [exact Hmo'|]. split; [exact Hva'|].
  exists p, t. split; [exact Hin|]. split; [exact Hm|].
  destruct (truthy v); [right; now exists v | now left].
Qed.

Lemma best_match_result_is_template_copy_witness :
  exists d,
    heap (snd (parse_command_from_text "please stop quickly" initial_state)) !! 26
    = Some d
    /\ Dict.keys d = ["action"; "direction"; "speed"].
Proof.
  assert (Hst : catalog_intact initial_state) by (split; reflexivity).
  destruct (best_match_result_is_template_copy initial_state
              "please stop quickly" 26
              (snd (parse_command_from_text "please stop quickly" initial_state))
              Hst eq_refl)
    as (_ & _ & d & Hd & Hk & _).
  - vm_compute. reflexivity.
  - exists d. split; [exact Hd | exact Hk].
Defined.

(** C2.  Off the exact-match path, the command template returned is the
    one of the phrase [p] that comes first in catalog order among those
    with the highest positive score: every template phrase before [p]
    scores strictly less (a later phrase replaces the running best only
    on a strictly greater score) and none after it scores more.  The
    speed found by the modifier scan, if any, is then written over it.
    In particular "go really forward" gives what "forward" gives. *)
Theorem first_best_phrase_wins :
  (forall st text pre p d post,
      catalog_intact st ->
      no_exact_match text ->
      catalog = pre ++ (p, d) :: post ->
      is_modifier_entry d = false ->
      (0 < phrase_score p (words_of text))%Q ->
      Forall (fun e => is_modifier_entry (snd e) = false ->
                (phrase_score (fst e) (words_of text)
                 < phrase_score p (words_of text))%Q) pre ->
      Forall (fun e => is_modifier_entry (snd e) = false ->
                (phrase_score (fst e) (words_of text)
                 <= phrase_score p (words_of text))%Q) post ->
      exists v,
        speed_modifier_scan (words_of text) st = (Ok v, st)
        /\ returned_value (parse_command_from_text text st)
           = Ok (Some (if truthy v then Dict.set d "speed" v else d)))
  /\ (forall st,
         catalog_intact st ->
         returned_value (parse_command_from_text "go really forward" st)
         = returned_value (parse_command_from_text "forward" st)).
Proof.
  split.
  - intros st text pre p d post Hst Hno Hcat Hd Hpos Hpre Hpost.
    destruct (value_parse_no_exact text Hno) as (v & b & Hv & Hb & Hp).
    exists v. split.
    { now rewrite (speed_modifier_scan_value st _ Hst), Hv. }
    rewrite (returned_value_parse text st Hst), Hp.
    pose proof catalog_nonempty_phrases as Hne.
    rewrite Hcat in Hb, Hne.
    rewrite (value_loop_first_max (words_of text) pre p d post
               Hne Hd Hpos Hpre Hpost) in Hb.
    injection Hb as <-. cbn [fst]. unfold Value.compose.
    assert (Hin : In (p, d) catalog).
    { rewrite Hcat. apply in_or_app. right. now left. }
    destruct (catalog_shape p d Hin) as [(_ & Hk & _)|(Hm' & _)]; [|congruence].
    destruct (template_shape d Hk) as (_ & _ & _ & ->). reflexivity.
  - intros st Hst. rewrite !(returned_value_parse _ st Hst).
    vm_compute. reflexivity.
Qed.

(** Both "left" and "right" score 1 against "left right"; "left" comes
    first in the catalog. *)
Lemma first_best_phrase_wins_witness :
  (phrase_score "left" (words_of "left right")
   == phrase_score "right" (words_of "left right"))%Q
  /\ returned_value (parse_command_from_text "left right" initial_state)
     = Ok (Some (template "turn" (PStr "left") (PStr "normal")))
  /\ returned_value (parse_command_from_text "go really forward" initial_state)
     = returned_value (parse_command_from_text "forward" initial_state).
Proof.
  assert (Hst : catalog_intact initial_state) by (split; reflexivity).
  destruct first_best_phrase_wins as [Hfirst Hsame].
  split; [reflexivity|]. split; [|exact (Hsame initial_state Hst)].
  destruct (Hfirst initial_state "left right"
              (firstn 8 catalog) "left"
              (template "turn" (PStr "left") (PStr "normal"))
              (skipn 9 catalog) Hst eq_refl eq_refl eq_refl eq_refl)
    as (v & Hscan & Hret).
  - repeat (constructor; [intros _; reflexivity|]). constructor.
  - repeat (constructor; [intros _; vm_compute; discriminate|]). constructor.
  - assert (Hv : v = PNone).
    { vm_compute in Hscan. now injection Hscan as <-. }
    rewrite Hv in Hret. exact Hret.
Defined.

(** C3.  Off the exact-match path, when the scan finds a speed word with
    value [v] and the best-match loop ends on a copy of a template [d],
    the call returns [d] with its speed field set to [v]; this holds
    when the speed of the template is [None] as well.  "stop quickly" and
    "turn left slowly" are instances. *)
Theorem speed_modifier_overrides_speed :
  (forall st text w1 m w2 v l q st1 d,
      catalog_intact st ->
      no_exact_match text ->
      words_of text = w1 ++ m :: w2 ->
      forallb plain_word w1 = true ->
      speed_word m v ->
      best_match_loop (words_of text) (COMMAND_MAPPINGS st) (None, 0%Q) st
      = (Ok (Some l, q), st1) ->
      heap st1 !! l = Some d ->
      returned_value (parse_command_from_text text st)
      = Ok (Some (Dict.set d "speed" v)))
  /\ (forall st,
         catalog_intact st ->
         returned_value (parse_command_from_text "stop quickly" st)
         = Ok (Some [("action", PStr "stop"); ("direction", PNone);
                     ("speed", PStr "fast")]))
  /\ (forall st,
         catalog_intact st ->
         returned_value (parse_command_from_text "turn left slowly" st)
         = Ok (Some [("action", PStr "turn"); ("direction", PStr "left");
                     ("speed", PStr "slow")])).
Proof.
  split; [|split].
  - intros st text w1 m w2 v l q st1 d Hst Hno Hwords Hw1 Hm Hrun Hl.
    pose proof Hst as [Hmap _].
    destruct (best_match_loop_value (length (heap st)) (words_of text)
                (COMMAND_MAPPINGS st) catalog
                ltac:(rewrite Hmap; exact mappings_rel)
                st (None, 0%Q) (None, 0%Q) Hst (le_n _) ltac:(now split))
      as (st2 & _ & _ & Hval).
    destruct (value_parse_no_exact text Hno) as (v' & b & Hv' & Hb & Hp).
    rewrite Hb in Hval. destruct Hval as (b' & Hrun' & _ & Hrel).
    rewrite Hrun in Hrun'. injection Hrun' as <- <-. cbn [fst] in Hrel.
    destruct (fst b) as [t|] eqn:Ht; [|easy].
    destruct Hrel as [_ Hl']. rewrite Hl in Hl'. injection Hl' as <-.
    rewrite Hwords, (value_scan_first w1 m v w2 Hw1 Hm) in Hv'.
    injection Hv' as <-.
    rewrite (returned_value_parse text st Hst), Hp. unfold Value.compose.
    destruct (value_loop_winner _ _ _ _ Hb) as [Hnone|(p & t & Hin & _ & Heq)].
    { cbn [fst] in Hnone. congruence. }
    rewrite Ht in Heq. injection Heq as ->.
    destruct (catalog_shape p t Hin) as [(_ & Hk & _)|(Hm' & s & -> & _)].
    + destruct (template_shape t Hk) as (_ & _ & _ & ->).
      destruct (speed_word_value m v Hm) as (s & _ & _ & ->). reflexivity.
    + destruct (speed_word_value m v Hm) as (s' & _ & _ & ->). reflexivity.
  - intros st Hst. rewrite (returned_value_parse _ st Hst).
    vm_compute. reflexivity.
  - intros st Hst. rewrite (returned_value_parse _ st Hst).
    vm_compute. reflexivity.
Qed.

Lemma speed_modifier_overrides_speed_witness :
  returned_value (parse_command_from_text "Halt quickly slowly" initial_state)
  = Ok (Some (Dict.set (template "stop" PNone PNone) "speed" (PStr "fast")))
  /\ returned_value (parse_command_from_text "stop quickly" initial_state)
     = Ok (Some (template "stop" PNone (PStr "fast")))
  /\ returned_value (parse_command_from_text "turn left slowly" initial_state)
     = Ok (Some (template "turn" (PStr "left") (PStr "slow"))).
Proof.
  assert (Hst : catalog_intact initial_state) by (split; reflexivity).
  destruct speed_modifier_overrides_speed as (Hgen & Hstop & Hturn).
  split; [|split; [exact (Hstop _ Hst) | exact (Hturn _ Hst)]].
  apply (Hgen initial_state "Halt quickly slowly"
           ["halt"] "quickly" ["slowly"] (PStr "fast") 26 1%Q
           (MkState (COMMAND_MAPPINGS initial_state)
                    (heap initial_state ++ [template "stop" PNone PNone]))
           (template "stop" PNone PNone) Hst).
  - reflexivity.
  - reflexivity.
  - reflexivity.
  - exists (modifier "fast"). repeat split; reflexivity.
  - vm_compute. reflexivity.
  - reflexivity.
Defined.

(** ** Mutating a returned command *)

Section Mutation.

(** Item assignment on an object that is none of the catalog's keeps the
    catalog, and every other object, as it was. *)
Lemma dict_setitem_outside st l d k v :
  catalog_intact st -> outside_catalog l -> heap st !! l = Some d ->
  exists st',
    dict_setitem l k v st = (Ok tt, st')
    /\ heap st' !! l = Some (Dict.set d k v)
    /\ (forall l', l' <> l -> heap st' !! l' = heap st !! l')
    /\ catalog_intact st'.
Proof.
  intros [Hm [rest Hrest]] Hout Hl. unfold dict_setitem. rewrite Hl.
  eexists. split; [reflexivity|]. cbn [heap COMMAND_MAPPINGS].
  split; [|split; [|split]].
  - apply list_lookup_insert_eq. now apply lookup_lt_Some in Hl.
  - intros l' Hne. now apply list_lookup_insert_ne.
  - exact Hm.
  - cbn [heap]. rewrite Hrest.
    rewrite insert_app_r_alt by exact Hout. now apply prefix_app_r.
Qed.

End Mutation.

(** C8.  For every phrase [p] of the catalog mapped to a command template
    [t], the call on [p] returns a new object, none of the objects of the
    catalog, holding the items of [t].  Assigning any item of that object
    (the handler assigns [rover_ip]) changes this object only: the
    catalog stays intact.  And no call, on any text, changes the catalog
    or any object that existed before the call. *)
Theorem exact_match_returns_independent_copy :
  (forall st p t,
      catalog_intact st ->
      In (p, t) catalog ->
      is_modifier_entry t = false ->
      exists l st',
        parse_command_from_text p st = (Ok (Some l), st')
        /\ heap st' !! l = Some t
        /\ outside_catalog l /\ length (heap st) <= l
        /\ forall k v,
             exists st'',
               dict_setitem l k v st' = (Ok tt, st'')
               /\ heap st'' !! l = Some (Dict.set t k v)
               /\ (forall l', l' <> l -> heap st'' !! l' = heap st' !! l')
               /\ catalog_intact st'')
  /\ (forall st text,
         catalog_intact st ->
         catalog_intact (snd (parse_command_from_text text st))
         /\ frame st (snd (parse_command_from_text text st))).
Proof.
  split.
  - intros st p t Hst Hin Ht.
    destruct (catalog_entry p t Hin) as (Hnorm & Hlook & _).
    destruct (parse_command_from_text_value p st Hst)
      as (r & st' & Hrun & Hst' & _ & Hrel).
    unfold Value.parse in Hrel. fold (normalized p) in Hrel.
    rewrite Hnorm, Hlook in Hrel. unfold result_rel in Hrel.
    destruct r as [[l|]|]; try easy. destruct Hrel as [Hfresh Hl].
    assert (Hout : outside_catalog l).
    { unfold outside_catalog. destruct Hst as [_ Hpre].
      apply prefix_length in Hpre. lia. }
    exists l, st'. repeat (split; [easy|]).
    intros k v. exact (dict_setitem_outside st' l t k v Hst' Hout Hl).
  - intros st text Hst.
    destruct (parse_command_from_text_value text st Hst)
      as (r & st' & -> & Hst' & Hfr & _).
    now split.
Qed.

Lemma exact_match_returns_independent_copy_witness :
  exists st' st'',
    parse_command_from_text "turn left" initial_state = (Ok (Some 26), st')
    /\ heap st' !! 26 = Some (template "turn" (PStr "left") (PStr "normal"))
    /\ dict_setitem 26 "rover_ip" (PStr "192.168.4.1") st' = (Ok tt, st'')
    /\ heap st'' !! 7 = Some (template "turn" (PStr "left") (PStr "normal"))
    /\ catalog_intact st''.
Proof.
  assert (Hst : catalog_intact initial_state) by (split; reflexivity).
  destruct exact_match_returns_independent_copy as [Hcopy _].
  destruct (Hcopy initial_state "turn left"
              (template "turn" (PStr "left") (PStr "normal")) Hst)
    as (l & st' & Hrun & Hl & Hout & Hfresh & Hset).
  - do 7 right. left. reflexivity.
  - reflexivity.
  - assert (Hl26 : l = 26).
    { vm_compute in Hrun. now injection Hrun as <- _. }
    subst l.
    destruct (Hset "rover_ip" (PStr "192.168.4.1"))
      as (st'' & Hrun'' & _ & Hother & Hst'').
    exists st', st''. split; [exact Hrun|]. split; [exact Hl|].
    split; [exact Hrun''|]. split; [|exact Hst''].
    destruct Hst'' as [_ Hpre].
    exact (prefix_lookup_Some (heap initial_state) (heap st'') 7
             (template "turn" (PStr "left") (PStr "normal")) eq_refl Hpre).
Defined.

(** ** The polling loop *)

Section Polling.

Lemma poll_loop_body elapsed_time w rt :
  poll_loop elapsed_time w rt
  = if Z_lt_dec elapsed_time max_wait_time then
      match poll_job w rt with
      | (Raise msg, rt1) => (Raise msg, rt1)
      | (Ok status, rt1) =>
          if String.eqb status "COMPLETED" then
            match call EGetTranscript get_transcript w rt1 with
            | (Ok transcript_text, rt2) =>
                (Ok (Some (PyStr.strip (PyStr.lower transcript_text))), rt2)
            | (Raise msg, rt2) => (Raise msg, rt2)
            end
          else if String.eqb status "FAILED" then (Ok None, rt1)
          else poll_loop (elapsed_time + wait_interval) w
                 (MkRuntime (py rt1) (events rt1 ++ [ESleep wait_interval]))
      end
    else (Ok None, rt).
Proof.
  simp poll_loop. destruct (Z_lt_dec elapsed_time max_wait_time); simpl; [|easy].
  destruct (get_transcription_job w (polls (events rt))) as [status|msg];
    simpl; [|easy].
  destruct (String.eqb status "COMPLETED"); simpl.
  - now destruct (get_transcript w).
  - now destruct (String.eqb status "FAILED").
Qed.

Ltac trace_done :=
  split; [|split; [|split; [|split]]]; unfold polls, slept; simpl;
  try reflexivity; try lia;
  repeat (constructor;
          [simpl; first [discriminate | intros _; reflexivity]|]);
  try constructor.

Lemma polls_app es es' : polls (es ++ es') = polls es + polls es'.
Proof. unfold polls. now rewrite List.filter_app, length_app. Qed.

Lemma slept_app es es' : slept (es ++ es') = (slept es + slept es')%Z.
Proof.
  unfold slept. induction es as [|e es IH]; simpl; [easy|].
  destruct e; rewrite ?IH; lia.
Qed.

(** What the loop adds to the log: at most one poll per unit of the
    remaining budget, and after each poll that neither ends nor breaks
    the loop one sleep of [wait_interval]. *)
Lemma poll_loop_trace n :
  forall elapsed_time w rt,
    Z.to_nat (max_wait_time - elapsed_time) <= n ->
    exists new,
      events (snd (poll_loop elapsed_time w rt)) = events rt ++ new
      /\ py (snd (poll_loop elapsed_time w rt)) = py rt
      /\ polls new <= n
      /\ (slept new <= Z.of_nat n)%Z
      /\ Forall (fun e => is_sleep e = true -> e = ESleep wait_interval) new.
Proof.
  induction n as [|n IH]; intros elapsed_time w rt Hn;
    rewrite poll_loop_body;
    destruct (Z_lt_dec elapsed_time max_wait_time) as [Hlt|Hge].
  - lia.
  - exists []. rewrite app_nil_r. trace_done.
  - unfold poll_job.
    destruct (get_transcription_job w (polls (events rt))) as [status|msg].
    2:{ exists [EGetJob]. trace_done. }
    destruct (String.eqb status "COMPLETED").
    { unfold call. cbn [events py].
      exists [EGetJob; EGetTranscript].
      destruct (get_transcript w); cbn [snd events py]; rewrite <- app_assoc;
        trace_done. }
    destruct (String.eqb status "FAILED").
    { exists [EGetJob]. trace_done. }
    cbn [events py].
    destruct (IH (elapsed_time + wait_interval)%Z w
                (MkRuntime (py rt)
                   ((events rt ++ [EGetJob]) ++ [ESleep wait_interval])))
      as (new & Hev & Hpy & Hpolls & Hslept & Hall).
    { unfold wait_interval. lia. }
    exists ([EGetJob; ESleep wait_interval] ++ new).
    rewrite Hev, Hpy. cbn [events py]. rewrite <- !app_assoc.
    split; [reflexivity|]. split; [reflexivity|].
    rewrite polls_app, slept_app.
    split; [cbn; lia|]. split; [cbn; unfold wait_interval at 1; lia|].
    cbn [app]. constructor; [discriminate|].
    constructor; [intros _; reflexivity | exact Hall].
  - exists []. rewrite app_nil_r. trace_done.
Qed.

(** No poll within the budget reports completion: the loop runs out
    (or breaks, or a poll raises) and no transcript comes back. *)
Lemma poll_loop_timeout n :
  forall elapsed_time w rt,
    Z.to_nat (max_wait_time - elapsed_time) <= n ->
    (forall k, k < n ->
       get_transcription_job w (polls (events rt) + k) <> Ok "COMPLETED") ->
    forall text, fst (poll_loop elapsed_time w rt) <> Ok (Some text).
Proof.
  induction n as [|n IH]; intros elapsed_time w rt Hn Hall text;
    rewrite poll_loop_body;
    destruct (Z_lt_dec elapsed_time max_wait_time) as [Hlt|Hge];
    try easy; try lia.
  unfold poll_job. pose proof (Hall 0 ltac:(lia)) as H0.
  rewrite Nat.add_0_r in H0.
  destruct (get_transcription_job w (polls (events rt))) as [status|msg];
    [|easy].
  destruct (String.eqb status "COMPLETED") eqn:Hc.
  { apply String.eqb_eq in Hc. now subst. }
  destruct (String.eqb status "FAILED"); [easy|].
  apply IH; [unfold wait_interval; lia|].
  intros k Hk. cbn [events]. rewrite !polls_app. cbn.
  replace (polls (events rt) + 1 + 0 + k) with (polls (events rt) + S k) by lia.
  apply Hall. lia.
Qed.

(** A poll within the budget reports failure and none before it reports
    completion: the loop breaks there at the latest. *)
Lemma poll_loop_failed k :
  forall elapsed_time w rt,
    k < Z.to_nat (max_wait_time - elapsed_time) ->
    get_transcription_job w (polls (events rt) + k) = Ok "FAILED" ->
    (forall j, j < k ->
       get_transcription_job w (polls (events rt) + j) <> Ok "COMPLETED") ->
    forall text, fst (poll_loop elapsed_time w rt) <> Ok (Some text).
Proof.
  induction k as [|k IH]; intros elapsed_time w rt Hk Hfail Hbefore text;
    rewrite poll_loop_body;
    destruct (Z_lt_dec elapsed_time max_wait_time) as [Hlt|Hge];
    try easy; unfold poll_job.
  - rewrite Nat.add_0_r in Hfail. now rewrite Hfail.
  - pose proof (Hbefore 0 ltac:(lia)) as H0. rewrite Nat.add_0_r in H0.
    destruct (get_transcription_job w (polls (events rt))) as [status|msg];
      [|easy].
    destruct (String.eqb status "COMPLETED") eqn:Hc.
    { apply String.eqb_eq in Hc. now subst. }
    destruct (String.eqb status "FAILED"); [easy|].
    apply IH.
    + unfold wait_interval. lia.
    + cbn [events]. rewrite !polls_app. cbn.
      replace (polls (events rt) + 1 + 0 + k) with (polls (events rt) + S k)
        by lia.
      exact Hfail.
    + intros j Hj. cbn [events]. rewrite !polls_app. cbn.
      replace (polls (events rt) + 1 + 0 + j) with (polls (events rt) + S j)
        by lia.
      apply Hbefore. lia.
Qed.

End Polling.

Section Transcribe.

(** [transcribe_audio] spelled out: start the job, poll, turn any
    exception into [None], and delete the job whatever happened. *)
Lemma transcribe_audio_body w rt :
  transcribe_audio w rt
  = let rt1 := MkRuntime (py rt) (events rt ++ [EStartJob]) in
    let inner :=
      match start_transcription_job w with
      | Ok _ =>
          match poll_loop 0%Z w rt1 with
          | (Ok t, rt2) => (Ok t, rt2)
          | (Raise _, rt2) => (Ok None, rt2)
          end
      | Raise _ => (Ok None, rt1)
      end in
    (fst inner,
     MkRuntime (py (snd inner)) (events (snd inner) ++ [EDeleteJob])).
Proof.
  unfold transcribe_audio, try_finally, try_except, io_bind, call, io_ret.
  cbn [py events].
  destruct (start_transcription_job w); cbn [fst snd].
  - destruct (poll_loop 0%Z w _) as [[t|msg] rt2]; cbn [fst snd];
      now destruct (delete_transcription_job w).
  - now destruct (delete_transcription_job w).
Qed.

(** The interpreter state is not touched by [transcribe_audio]. *)
Lemma transcribe_audio_py w rt : py (snd (transcribe_audio w rt)) = py rt.
Proof.
  rewrite transcribe_audio_body. cbn [snd py].
  destruct (start_transcription_job w); [|reflexivity].
  destruct (poll_loop_trace 30 0%Z w
              (MkRuntime (py rt) (events rt ++ [EStartJob])) ltac:(easy))
    as (new & _ & Hpy & _).
  destruct (poll_loop 0%Z w _) as [[t|msg] rt2]; exact Hpy.
Qed.

End Transcribe.

(** ** The handler *)

Section Handler.

Lemma poll_first_fault w rt :
  raises (get_transcription_job w (polls (events rt))) ->
  forall text, fst (poll_loop 0%Z w rt) <> Ok (Some text).
Proof.
  intros [msg Hmsg] text. rewrite poll_loop_body.
  destruct (Z_lt_dec 0 max_wait_time) as [_|Hge]; [|easy].
  unfold poll_job. now rewrite Hmsg.
Qed.

(** No transcript comes back when the job cannot be started, when a poll
    fails on the network, when the job fails and when it times out. *)
Lemma transcribe_audio_none w rt :
  raises (start_transcription_job w)
  \/ raises (get_transcription_job w (polls (events rt)))
  \/ job_never_completes w (polls (events rt))
  \/ job_fails w (polls (events rt)) ->
  fst (transcribe_audio w rt) = Ok None.
Proof.
  intros H. rewrite transcribe_audio_body. cbn zeta.
  set (rt1 := MkRuntime (py rt) (events rt ++ [EStartJob])).
  assert (Hp1 : polls (events rt1) = polls (events rt)).
  { unfold rt1. cbn [events]. rewrite polls_app. cbn. lia. }
  destruct (start_transcription_job w) as [u|msg]; [|reflexivity].
  assert (Hnone : forall text, fst (poll_loop 0%Z w rt1) <> Ok (Some text)).
  { destruct H as [[msg Hs]|[Hp|[Hn|(k & Hk & Hf & Hb)]]].
    - discriminate Hs.
    - apply poll_first_fault. now rewrite Hp1.
    - apply (poll_loop_timeout 30); [easy|]. now rewrite Hp1.
    - apply (poll_loop_failed k); rewrite ?Hp1; easy. }
  destruct (poll_loop 0%Z w rt1) as [[[text|]|msg] rt2]; cbn [fst snd] in *;
    try reflexivity.
  now destruct (Hnone text).
Qed.

(** [process_voice_command] catches every exception: it returns. *)
Lemma process_voice_command_returns audio_data rover_ip w rt :
  exists command, fst (process_voice_command audio_data rover_ip w rt)
                  = Ok command.
Proof.
  unfold process_voice_command, try_except.
  match goal with |- context [match ?m w rt with _ => _ end] =>
    destruct (m w rt) as [[c|msg] rt'] end.
  - now exists c.
  - now exists None.
Qed.

(** The pipeline ends in "no command" when a call before the
    transcription raises and when no transcript comes back. *)
Lemma process_voice_command_none audio_data rover_ip w rt :
  raises (b64decode w audio_data)
  \/ raises (environ_AUDIO_BUCKET w)
  \/ raises (put_object w)
  \/ fst (transcribe_audio w (MkRuntime (py rt) (events rt ++ [EPutObject])))
     = Ok None ->
  fst (process_voice_command audio_data rover_ip w rt) = Ok None.
Proof.
  intros H. unfold process_voice_command, try_except.
  unfold io_bind at 1, io_raise_or at 1.
  destruct (b64decode w audio_data) as [audio_bytes|msg] eqn:Eb; [|reflexivity].
  unfold io_bind at 1, io_raise_or at 1.
  destruct (environ_AUDIO_BUCKET w) as [bucket_name|msg] eqn:Ee; [|reflexivity].
  unfold io_bind at 1, call at 1.
  destruct (put_object w) as [u|msg] eqn:Ep; [|reflexivity].
  destruct H as [[m Hm]|[[m Hm]|[[m Hm]|Ht]]]; try discriminate Hm.
  unfold io_bind at 1.
  destruct (transcribe_audio w _) as [[[text|]|msg] rt2]; cbn [fst] in Ht;
    try discriminate Ht; reflexivity.
Qed.

(** The upload is not a poll. *)
Lemma polls_after_upload rt :
  polls (events (MkRuntime (py rt) (events rt ++ [EPutObject])))
  = polls (events rt).
Proof. cbn [events]. rewrite polls_app. cbn. lia. Qed.

(** Past the validation, the response is decided by what the pipeline
    returns; with no command it is the 400 of line 89. *)
Lemma lambda_handler_no_command event w rt audio_data rover_ip rt' :
  request_audio w event audio_data rover_ip ->
  process_voice_command audio_data rover_ip w rt = (Ok None, rt') ->
  lambda_handler event w rt
  = (Ok (MkResponse 400 cors_headers
           (error_body "No valid command recognized" w)), rt').
Proof.
  intros (event_body & body & Hev & Hbody & Hhas & Haudio & Hip) Hrun.
  unfold lambda_handler, try_except. unfold Dict.has. rewrite Hev. cbn [negb].
  unfold io_bind at 1, io_raise_or at 1. cbn [py_getitem]. rewrite Hev.
  unfold io_bind at 1, io_raise_or at 1. rewrite Hbody.
  unfold io_bind at 1, io_raise_or at 1. rewrite Hhas. cbn [negb].
  unfold io_bind at 1, io_raise_or at 1. rewrite Haudio.
  unfold io_bind at 1, io_raise_or at 1. rewrite Hip.
  unfold io_bind at 1. rewrite Hrun. reflexivity.
Qed.

End Handler.

(** C5, as the code behaves.  A request whose event has no body, a
    request whose body (decoded when it is a string) is a dictionary, a
    list or a string for which the test ['audio' not in body] of line 75
    holds, and a request that passes these checks and for which the
    pipeline produces no command (in particular when the transcription
    job fails or does not complete within the 30 polls) are answered with
    status 400, the body holding [success: false], an error string and
    the timestamp. *)
Theorem invalid_requests_get_400 :
  (forall event w rt,
      Dict.has event "body" = false ->
      lambda_handler event w rt
      = (Ok (MkResponse 400 cors_headers
               (error_body "Missing request body" w)), rt))
  /\ (forall event w rt event_body body,
         Dict.get event "body" = Some event_body ->
         decode_body w event_body = Ok body ->
         py_contains body "audio" = Ok false ->
         lambda_handler event w rt
         = (Ok (MkResponse 400 cors_headers
                  (error_body "Missing audio data" w)), rt))
  /\ (forall event w rt audio_data rover_ip,
         request_audio w event audio_data rover_ip ->
         fst (process_voice_command audio_data rover_ip w rt) = Ok None ->
         fst (lambda_handler event w rt)
         = Ok (MkResponse 400 cors_headers
                 (error_body "No valid command recognized" w)))
  /\ (forall event w rt audio_data rover_ip,
         request_audio w event audio_data rover_ip ->
         job_never_completes w (polls (events rt))
         \/ job_fails w (polls (events rt)) ->
         fst (lambda_handler event w rt)
         = Ok (MkResponse 400 cors_headers
                 (error_body "No valid command recognized" w))).
Proof.
  assert (Hnone : forall event w rt audio_data rover_ip,
             request_audio w event audio_data rover_ip ->
             fst (process_voice_command audio_data rover_ip w rt) = Ok None ->
             fst (lambda_handler event w rt)
             = Ok (MkResponse 400 cors_headers
                     (error_body "No valid command recognized" w))).
  { intros event w rt a r Hreq Hrun.
    destruct (process_voice_command a r w rt) as [c rt'] eqn:E.
    cbn [fst] in Hrun. subst c.
    now rewrite (lambda_handler_no_command event w rt a r rt' Hreq E). }
  split; [|split; [|split]].
  - intros event w rt Hbody. unfold lambda_handler, try_except.
    now rewrite Hbody.
  - intros event w rt event_body body Hev Hbody Hhas.
    unfold lambda_handler, try_except. unfold Dict.has. rewrite Hev.
    cbn [negb]. unfold io_bind at 1, io_raise_or at 1. cbn [py_getitem].
    rewrite Hev. unfold io_bind at 1, io_raise_or at 1. rewrite Hbody.
    unfold io_bind at 1, io_raise_or at 1. rewrite Hhas. reflexivity.
  - exact Hnone.
  - intros event w rt a r Hreq Hjob. apply (Hnone event w rt a r Hreq).
    apply process_voice_command_none. do 3 right.
    apply transcribe_audio_none. rewrite polls_after_upload. tauto.
Qed.

Lemma invalid_requests_get_400_witness :
  statusCode_of (lambda_handler [] (world_ok "stop") runtime0) = Some 400%Z
  /\ statusCode_of
       (lambda_handler [("body", PDict [("rover_ip", PStr "192.168.4.1")])]
          (world_ok "stop") runtime0) = Some 400%Z
  /\ statusCode_of
       (lambda_handler (request "UklGRg==") (world_ok "good morning") runtime0)
     = Some 400%Z
  /\ statusCode_of
       (lambda_handler (request "UklGRg==") world_slow_job runtime0)
     = Some 400%Z.
Proof.
  destruct invalid_requests_get_400 as (Hbody & Haudio & Hnone & Hjob).
  assert (Hreq : forall w, request_audio w (request "UklGRg==")
                             (PStr "UklGRg==") PNone).
  { intros w. exists (PDict [("audio", PStr "UklGRg==")]),
                     (PDict [("audio", PStr "UklGRg==")]).
    repeat split; reflexivity. }
  unfold statusCode_of. split; [|split; [|split]].
  - now rewrite (Hbody [] (world_ok "stop") runtime0 eq_refl).
  - now rewrite (Haudio [("body", PDict [("rover_ip", PStr "192.168.4.1")])]
                   (world_ok "stop") runtime0
                   (PDict [("rover_ip", PStr "192.168.4.1")])
                   (PDict [("rover_ip", PStr "192.168.4.1")])
                   eq_refl eq_refl eq_refl).
  - rewrite (Hnone (request "UklGRg==") (world_ok "good morning") runtime0
               (PStr "UklGRg==") PNone (Hreq _));
      [reflexivity|]. vm_compute. reflexivity.
  - rewrite (Hjob (request "UklGRg==") world_slow_job runtime0
               (PStr "UklGRg==") PNone (Hreq _)); [reflexivity|].
    left. intros k _. discriminate.
Defined.

(** * Further properties of the matcher *)

Section ScoreBounds.

Lemma count_matches_le phrase_words words :
  count_matches phrase_words words <= length phrase_words.
Proof.
  induction phrase_words as [|w ws IH]; simpl; [lia|].
  destruct (PyStr.mem w words); lia.
Qed.

Lemma count_matches_all phrase_words words :
  count_matches phrase_words words = length phrase_words
  <-> forall w, In w phrase_words -> PyStr.mem w words = true.
Proof.
  induction phrase_words as [|w ws IH]; simpl; [easy|].
  pose proof (count_matches_le ws words) as Hle.
  destruct (PyStr.mem w words) eqn:Hw; split.
  - intros H w' [<-|Hw']; [easy|]. apply IH; [lia|easy].
  - intros H. f_equal. apply IH. intros w' Hw'. apply H. now right.
  - intros H. simpl in H. lia.
  - intros H. specialize (H w (or_introl eq_refl)). congruence.
Qed.

Lemma count_matches_pos phrase_words words :
  0 < count_matches phrase_words words
  <-> exists w, In w phrase_words /\ PyStr.mem w words = true.
Proof.
  induction phrase_words as [|w ws IH]; simpl.
  { split; [lia|]. now intros (w & [] & _). }
  destruct (PyStr.mem w words) eqn:Hw; split.
  - intros _. exists w. split; [now left|easy].
  - intros _. lia.
  - intros H. simpl in H. apply IH in H as (w' & Hin & Hm).
    exists w'. split; [now right|easy].
  - intros (w' & [<-|Hin] & Hm); [congruence|].
    simpl. apply IH. now exists w'.
Qed.

(** The quotient of line 254 written as a fraction. *)
Lemma normalize_S score len :
  normalize score (S len)
  = Qmake (Z.of_nat score * 1) (1 * Pos.of_succ_nat len).
Proof. reflexivity. Qed.

End ScoreBounds.

(** X1.  For a phrase with at least one word the normalized score is a
    fraction between 0 and 1; it is 1 exactly when every word of the
    phrase is among the words of the input, and 0 exactly when none is.
    Order, repetitions and further words of the input do not count.  For
    a phrase without words there is no score: the division of line 254
    raises, for every entry that is not a modifier. *)
Theorem phrase_score_is_containment phrase words :
  (length (PyStr.split phrase) <> 0 ->
   (0 <= phrase_score phrase words <= 1)%Q
   /\ ((phrase_score phrase words == 1)%Q
       <-> forall w, In w (PyStr.split phrase) -> PyStr.mem w words = true)
   /\ ((phrase_score phrase words == 0)%Q
       <-> forall w, In w (PyStr.split phrase) ->
                     PyStr.mem w words = false))
  /\ (length (PyStr.split phrase) = 0 ->
      forall st best cmd (d : dict),
        heap st !! cmd = Some d ->
        Dict.has d "modifier" = false ->
        best_match_step words best (phrase, cmd) st
        = (Raise "division by zero", st)).
Proof.
  split.
  - unfold phrase_score.
    pose proof (count_matches_le (PyStr.split phrase) words) as Hle.
    pose proof (count_matches_all (PyStr.split phrase) words) as Hall.
    pose proof (count_matches_pos (PyStr.split phrase) words) as Hpos.
    destruct (length (PyStr.split phrase)) as [|len] eqn:Hlen; [easy|].
    intros _. rewrite normalize_S.
    set (c := count_matches (PyStr.split phrase) words) in *.
    assert (Hz : Z.pos (Pos.of_succ_nat len) = Z.of_nat (S len))
      by (rewrite Zpos_P_of_succ_nat; lia).
    split; [|split].
    + unfold Qle. cbn [Qnum Qden]. rewrite Pos.mul_1_l, Hz. split; lia.
    + rewrite <- Hall. unfold Qeq. cbn [Qnum Qden]. rewrite Pos.mul_1_l, Hz.
      split; intros H; lia.
    + unfold Qeq. cbn [Qnum Qden]. split.
      * intros H w Hw. destruct (PyStr.mem w words) eqn:Hm; [|reflexivity].
        assert (0 < c) by (apply Hpos; now exists w). lia.
      * intros H. assert (c = 0); [|lia].
        destruct (Nat.eq_dec c 0) as [|Hc]; [easy|].
        assert (0 < c) as Hc' by lia. apply Hpos in Hc' as (w & Hw & Hm).
        rewrite (H w Hw) in Hm. discriminate.
  - intros Hlen st [best_match best_score] cmd d Hcmd Hd.
    unfold best_match_step, bind, deref. rewrite Hcmd, Hd, Hlen. reflexivity.
Qed.

Lemma phrase_score_is_containment_witness :
  (phrase_score "go forward" ["forward"; "really"; "go"; "go"] == 1)%Q
  /\ (phrase_score "go forward" ["stop"] == 0)%Q
  /\ best_match_step ["stop"] (None, 0%Q) (" ", 19) initial_state
     = (Raise "division by zero", initial_state).
Proof.
  destruct (phrase_score_is_containment "go forward"
              ["forward"; "really"; "go"; "go"]) as [H1 _].
  destruct (phrase_score_is_containment "go forward" ["stop"]) as [H0 _].
  destruct (phrase_score_is_containment " " ["stop"]) as [_ Hz].
  split; [|split].
  - apply H1; [discriminate|]. intros w [<-|[<-|[]]]; reflexivity.
  - apply H0; [discriminate|]. intros w [<-|[<-|[]]]; reflexivity.
  - apply (Hz eq_refl initial_state (None, 0%Q) 19 (template "stop" PNone PNone));
      reflexivity.
Defined.

Section SomeCandidate.

Variable words : list string.

Lemma value_step_keeps_candidate b x b' :
  Value.best_match_step words b x = Ok b' ->
  (fst b <> None -> fst b' <> None) /\ (no_lead b -> no_lead b').
Proof.
  unfold Value.best_match_step, no_lead.
  destruct (Dict.has (snd x) "modifier"); [now intros [= <-]|].
  destruct (length (PyStr.split (fst x))); [easy|].
  destruct (Qgtb _ _ && _); intros [= <-]; cbn [fst snd]; easy.
Qed.

Lemma value_loop_keeps_candidate xs :
  forall b b',
    Value.best_match_loop words xs b = Ok b' ->
    (fst b <> None -> fst b' <> None) /\ (no_lead b -> no_lead b').
Proof.
  induction xs as [|x xs IH]; intros b b'; simpl.
  { now intros [= <-]. }
  destruct (Value.best_match_step words b x) as [b1|] eqn:Hstep; [|easy].
  intros Hloop. destruct (value_step_keeps_candidate _ _ _ Hstep) as [H1 H2].
  destruct (IH _ _ Hloop) as [H3 H4]. split; auto.
Qed.

(** A template phrase that shares a word with the input leaves the loop
    with a candidate. *)
Lemma value_loop_candidate xs p d :
  In (p, d) xs ->
  Dict.has d "modifier" = false ->
  0 < count_matches (PyStr.split p) words ->
  forall b b',
    no_lead b ->
    Value.best_match_loop words xs b = Ok b' ->
    fst b' <> None.
Proof.
  intros Hin Hd Hc.
  induction xs as [|x xs IH]; [easy|]. intros b b' Hb. simpl.
  destruct (Value.best_match_step words b x) as [b1|] eqn:Hstep; [|easy].
  intros Hloop.
  destruct (value_step_keeps_candidate _ _ _ Hstep) as [_ Hlead].
  destruct Hin as [->|Hin]; [|now apply (IH Hin b1 b' (Hlead Hb))].
  apply (value_loop_keeps_candidate _ _ _ Hloop).
  revert Hstep. unfold Value.best_match_step. cbn [fst snd]. rewrite Hd.
  pose proof (count_matches_le (PyStr.split p) words) as Hle.
  destruct (length (PyStr.split p)) as [|len] eqn:Hlen; [lia|].
  destruct (Qgtb _ _) eqn:Hg.
  - apply Nat.ltb_lt in Hc. rewrite Hc. cbn [andb].
    intros [= <-]. cbn [fst]. discriminate.
  - cbn [andb]. intros [= <-] Hnone. apply Qgtb_false in Hg.
    assert (Hpos : (0 < phrase_score p words)%Q).
    { unfold phrase_score. rewrite Hlen, normalize_S. unfold Qlt.
      cbn [Qnum Qden]. lia. }
    specialize (Hb Hnone).
    apply (Qlt_irrefl 0).
    eapply Qlt_le_trans; [exact Hpos|].
    eapply Qle_trans; [exact Hg|exact Hb].
Qed.

End SomeCandidate.

(** X2.  Off the exact-match path, as soon as one word of the input is a
    word of some command-template phrase the call returns a command.
    With C6 this tells exactly when the scan gives [None]. *)
Theorem shared_word_gives_command st text p d w :
  catalog_intact st ->
  no_exact_match text ->
  In (p, d) catalog ->
  is_modifier_entry d = false ->
  In w (PyStr.split p) ->
  PyStr.mem w (words_of text) = true ->
  exists l st' c,
    parse_command_from_text text st = (Ok (Some l), st')
    /\ heap st' !! l = Some c.
Proof.
  intros Hst Hno Hin Hd Hw Hm.
  destruct (parse_command_from_text_value text st Hst)
    as (r & st' & Hrun & _ & _ & Hrel).
  destruct (value_parse_no_exact text Hno) as (v & b & _ & Hb & Hp).
  assert (Hcand : fst b <> None).
  { apply (value_loop_candidate (words_of text) catalog p d Hin Hd)
      with (b := (None, 0%Q)); [|intros _; apply Qle_refl|exact Hb].
    apply count_matches_pos. exists w. split; assumption. }
  destruct (value_loop_winner _ _ _ _ Hb) as [Hnone|(p' & t & Hin' & Ht & Hfst)].
  { cbn [fst] in Hnone. congruence. }
  destruct (catalog_shape p' t Hin') as [(_ & Hk & _)|(Hm' & _)]; [|congruence].
  destruct (template_shape t Hk) as (_ & _ & _ & Htr).
  rewrite Hp, Hfst in Hrel. unfold Value.compose in Hrel. rewrite Htr in Hrel.
  unfold result_rel in Hrel. destruct r as [[l|]|]; try easy.
  destruct Hrel as [_ Hl]. exists l, st'. eexists.
  split; [exact Hrun|exact Hl].
Qed.

Lemma shared_word_gives_command_witness :
  exists l st' c,
    parse_command_from_text "slide over there" initial_state
    = (Ok (Some l), st')
    /\ heap st' !! l = Some c.
Proof.
  apply (shared_word_gives_command initial_state "slide over there"
           "slide right" (template "strafe" (PStr "right") (PStr "normal"))
           "slide").
  - split; reflexivity.
  - reflexivity.
  - do 14 right. left. reflexivity.
  - reflexivity.
  - left. reflexivity.
  - reflexivity.
Defined.

(** X3.  The objects returned by two calls never alias, and the second
    call leaves the object returned by the first (and anything a caller
    stored in it) as it is. *)
Theorem results_do_not_alias st text1 l1 st1 k v st1' text2 l2 st2 :
  catalog_intact st ->
  parse_command_from_text text1 st = (Ok (Some l1), st1) ->
  dict_setitem l1 k v st1 = (Ok tt, st1') ->
  parse_command_from_text text2 st1' = (Ok (Some l2), st2) ->
  l1 <> l2 /\ heap st2 !! l1 = heap st1' !! l1.
Proof.
  intros Hst Hrun1 Hset Hrun2.
  destruct (parse_command_from_text_value text1 st Hst)
    as (r1 & st1_ & Hrun1' & Hst1 & _ & Hrel1).
  rewrite Hrun1 in Hrun1'. injection Hrun1' as <- <-.
  unfold result_rel in Hrel1.
  destruct (Value.parse catalog text1) as [[d1|]|]; try easy.
  destruct Hrel1 as [Hfresh1 Hl1].
  assert (Hout : outside_catalog l1).
  { unfold outside_catalog. destruct Hst as [_ Hpre].
    apply prefix_length in Hpre. lia. }
  destruct (dict_setitem_outside st1 l1 d1 k v Hst1 Hout Hl1)
    as (st1'_ & Hset' & Hl1' & _ & Hst1').
  rewrite Hset in Hset'. injection Hset' as <-.
  destruct (parse_command_from_text_value text2 st1' Hst1')
    as (r2 & st2_ & Hrun2' & _ & Hfr & Hrel2).
  rewrite Hrun2 in Hrun2'. injection Hrun2' as <- <-.
  unfold result_rel in Hrel2.
  destruct (Value.parse catalog text2) as [[d2|]|]; try easy.
  destruct Hrel2 as [Hfresh2 _].
  apply lookup_lt_Some in Hl1'.
  split; [lia|]. now apply Hfr.
Qed.

Lemma results_do_not_alias_witness :
  26 <> 27
  /\ heap (snd (parse_command_from_text "halt"
                 (snd (dict_setitem 26 "rover_ip" (PStr "10.0.0.7")
                         (snd (parse_command_from_text "stop"
                                 initial_state)))))) !! 26
     = Some [("action", PStr "stop"); ("direction", PNone);
             ("speed", PNone); ("rover_ip", PStr "10.0.0.7")].
Proof.
  destruct (results_do_not_alias initial_state "stop" 26
              (snd (parse_command_from_text "stop" initial_state))
              "rover_ip" (PStr "10.0.0.7")
              (snd (dict_setitem 26 "rover_ip" (PStr "10.0.0.7")
                      (snd (parse_command_from_text "stop" initial_state))))
              "halt" 27
              (snd (parse_command_from_text "halt"
                      (snd (dict_setitem 26 "rover_ip" (PStr "10.0.0.7")
                              (snd (parse_command_from_text "stop"
                                      initial_state)))))))
    as [Hne Hsame].
  - split; reflexivity.
  - vm_compute. reflexivity.
  - vm_compute. reflexivity.
  - vm_compute. reflexivity.
  - split; [exact Hne|].
    etransitivity; [exact Hsame|]. vm_compute. reflexivity.
Defined.

Section Normalization.

Lemma lower_char_idem c :
  PyStr.lower_char (PyStr.lower_char c) = PyStr.lower_char c.
Proof. destruct c as [[] [] [] [] [] [] [] []]; reflexivity. Qed.

Lemma isspace_lower_char c :
  PyStr.isspace (PyStr.lower_char c) = PyStr.isspace c.
Proof. destruct c as [[] [] [] [] [] [] [] []]; reflexivity. Qed.

Lemma lower_idem s : PyStr.lower (PyStr.lower s) = PyStr.lower s.
Proof.
  induction s as [|c s IH]; simpl; [easy|]. now rewrite lower_char_idem, IH.
Qed.

Lemma lower_lstrip s :
  PyStr.lower (PyStr.lstrip s) = PyStr.lstrip (PyStr.lower s).
Proof.
  induction s as [|c s IH]; simpl; [easy|]. rewrite isspace_lower_char.
  now destruct (PyStr.isspace c).
Qed.

Lemma lower_rev_app s acc :
  PyStr.lower (String.rev_app s acc)
  = String.rev_app (PyStr.lower s) (PyStr.lower acc).
Proof.
  revert acc. induction s as [|c s IH]; intros acc; simpl; [easy|].
  now rewrite IH.
Qed.

Lemma lower_strip s :
  PyStr.lower (PyStr.strip s) = PyStr.strip (PyStr.lower s).
Proof.
  unfold PyStr.strip, PyStr.rstrip, String.rev.
  now rewrite lower_rev_app, lower_lstrip, lower_rev_app, lower_lstrip.
Qed.

Lemma head_ok_lstrip s : head_ok (PyStr.lstrip s) = true.
Proof.
  induction s as [|c s IH]; simpl; [easy|].
  destruct (PyStr.isspace c) eqn:Hc; [exact IH|]. simpl. now rewrite Hc.
Qed.

Lemma lstrip_head_ok s : head_ok s = true -> PyStr.lstrip s = s.
Proof.
  destruct s as [|c s]; simpl; [easy|].
  now destruct (PyStr.isspace c).
Qed.

Lemma last_ok_lstrip s : last_ok s = true -> last_ok (PyStr.lstrip s) = true.
Proof.
  induction s as [|c s IH]; [easy|]. intros H. cbn [PyStr.lstrip].
  destruct (PyStr.isspace c) eqn:Hc; [|exact H].
  apply IH. destruct s; [reflexivity|exact H].
Qed.

Lemma last_ok_rev_app s c acc :
  last_ok (String.rev_app s (String c acc)) = last_ok (String c acc).
Proof.
  revert c acc. induction s as [|a s IH]; intros c acc; [easy|].
  cbn [String.rev_app]. now rewrite IH.
Qed.

Lemma last_ok_rev s : head_ok s = true -> last_ok (String.rev s) = true.
Proof.
  destruct s as [|c s]; [easy|]. unfold String.rev. cbn [String.rev_app].
  now rewrite last_ok_rev_app.
Qed.

Lemma head_ok_rev_app s acc :
  head_ok (String.rev_app s acc)
  = match s with EmptyString => head_ok acc | _ => last_ok s end.
Proof.
  revert acc. induction s as [|a s IH]; intros acc; [easy|].
  cbn [String.rev_app]. rewrite IH. now destruct s.
Qed.

Lemma head_ok_rev s : last_ok s = true -> head_ok (String.rev s) = true.
Proof.
  intros H. unfold String.rev. rewrite head_ok_rev_app. now destruct s.
Qed.

Lemma rev_app_rev_app s a b :
  String.rev_app (String.rev_app s a) b = String.rev_app a (s +:+ b).
Proof.
  revert a b. induction s as [|c s IH]; intros a b; [easy|].
  cbn [String.rev_app]. now rewrite IH.
Qed.

Lemma rev_involutive s : String.rev (String.rev s) = s.
Proof.
  unfold String.rev. rewrite rev_app_rev_app. cbn [String.rev_app].
  induction s as [|c s IH]; [easy|].
  change (String c (s +:+ "") = String c s). now rewrite IH.
Qed.

(** Stripping twice strips once. *)
Lemma strip_idem s : PyStr.strip (PyStr.strip s) = PyStr.strip s.
Proof.
  unfold PyStr.strip, PyStr.rstrip.
  set (X := PyStr.lstrip (String.rev (PyStr.lstrip s))).
  assert (HX : head_ok X = true) by apply head_ok_lstrip.
  assert (LX : last_ok X = true).
  { apply last_ok_lstrip, last_ok_rev, head_ok_lstrip. }
  rewrite (lstrip_head_ok (String.rev X)) by now apply head_ok_rev.
  now rewrite rev_involutive, (lstrip_head_ok X HX).
Qed.

Lemma normalized_idem text : normalized (normalized text) = normalized text.
Proof.
  unfold normalized. now rewrite lower_strip, strip_idem, lower_idem.
Qed.

End Normalization.

(** X4.  The result depends on the text only through its lower-cased,
    trimmed form, and normalizing twice is normalizing once: handing the
    matcher a transcript that [transcribe_audio] has already lower-cased
    and trimmed (line 191) gives what the raw transcript gives. *)
Theorem matcher_sees_normalized_text :
  (forall st text1 text2,
      catalog_intact st ->
      normalized text1 = normalized text2 ->
      returned_value (parse_command_from_text text1 st)
      = returned_value (parse_command_from_text text2 st))
  /\ (forall st text,
         catalog_intact st ->
         returned_value (parse_command_from_text (normalized text) st)
         = returned_value (parse_command_from_text text st)).
Proof.
  assert (H : forall st text1 text2,
             catalog_intact st ->
             normalized text1 = normalized text2 ->
             returned_value (parse_command_from_text text1 st)
             = returned_value (parse_command_from_text text2 st)).
  { intros st text1 text2 Hst Heq.
    rewrite !(returned_value_parse _ st Hst). unfold Value.parse.
    fold (normalized text1). fold (normalized text2). now rewrite Heq. }
  split; [exact H|].
  intros st text Hst. apply (H st _ _ Hst). apply normalized_idem.
Qed.

Lemma matcher_sees_normalized_text_witness :
  returned_value
    (parse_command_from_text (String "009" "Turn LEFT Quickly  ") initial_state)
  = returned_value (parse_command_from_text "turn left quickly" initial_state).
Proof.
  destruct matcher_sees_normalized_text as [H _].
  apply (H initial_state); [split; reflexivity|]. reflexivity.
Defined.

(** ** Which commands the best-match loop can produce *)

Section ScanTable.

Lemma mem_In w ws : PyStr.mem w ws = true <-> In w ws.
Proof.
  unfold PyStr.mem. rewrite existsb_exists. split.
  - intros (x & Hx & Heq). apply String.eqb_eq in Heq. now subst.
  - intros H. exists w. split; [easy|]. apply String.eqb_refl.
Qed.

Lemma mem_filter (f : string -> bool) w l :
  PyStr.mem w (List.filter f l) = PyStr.mem w l && f w.
Proof.
  induction l as [|x l IH]; [easy|]. cbn [List.filter].
  destruct (f x) eqn:Hfx; unfold PyStr.mem in *; cbn [existsb];
    rewrite IH; destruct (String.eqb w x) eqn:Hwx; cbn [orb andb]; try easy.
  - apply String.eqb_eq in Hwx. subst. now rewrite Hfx.
  - apply String.eqb_eq in Hwx. subst. rewrite Hfx. now rewrite andb_false_r.
Qed.

(** On the words of the template phrases, [known_words] keeps what the
    input has. *)
Lemma mem_known_words w words :
  In w template_words ->
  PyStr.mem w (known_words words) = PyStr.mem w words.
Proof.
  intros Hw. unfold known_words. rewrite mem_filter.
  apply mem_In in Hw. now rewrite Hw.
Qed.

Lemma filter_in_sublists {A} (f : A -> bool) l :
  In (List.filter f l) (sublists l).
Proof.
  induction l as [|x l IH]; [now left|]. cbn [List.filter sublists].
  apply in_or_app. destruct (f x); [left|now right].
  now apply in_map.
Qed.

Lemma count_matches_ext phrase_words ws ws' :
  (forall w, In w phrase_words -> PyStr.mem w ws = PyStr.mem w ws') ->
  count_matches phrase_words ws = count_matches phrase_words ws'.
Proof.
  induction phrase_words as [|w pw IH]; [easy|]. intros H. simpl.
  rewrite (H w) by now left. f_equal. apply IH. intros w' Hw'. apply H.
  now right.
Qed.

(** The phrases of the command templates are made of [template_words]. *)
Lemma catalog_vocabulary :
  Forall (fun e => is_modifier_entry (snd e) = true
                   \/ forallb (fun w => PyStr.mem w template_words)
                         (PyStr.split (fst e)) = true) catalog.
Proof.
  repeat (constructor; [first [left; reflexivity | right; reflexivity]|]).
  constructor.
Qed.

(** The loop sees the input only through the template words it has. *)
Lemma value_loop_known_words words xs :
  Forall (fun e => is_modifier_entry (snd e) = true
                   \/ forallb (fun w => PyStr.mem w template_words)
                         (PyStr.split (fst e)) = true) xs ->
  forall b,
    Value.best_match_loop words xs b
    = Value.best_match_loop (known_words words) xs b.
Proof.
  induction xs as [|x xs IH]; [easy|]. intros Hxs b.
  apply Forall_cons in Hxs as [Hx Hxs]. cbn [Value.best_match_loop].
  assert (Hstep : Value.best_match_step words b x
                  = Value.best_match_step (known_words words) b x).
  { unfold Value.best_match_step. unfold is_modifier_entry in Hx.
    destruct (Dict.has (snd x) "modifier"); [easy|].
    destruct Hx as [Hx|Hx]; [discriminate|].
    unfold phrase_score.
    rewrite (count_matches_ext (PyStr.split (fst x)) words (known_words words));
      [reflexivity|].
    intros w Hw. symmetry. apply mem_known_words. apply mem_In.
    rewrite forallb_forall in Hx. now apply Hx. }
  rewrite Hstep. clear Hstep.
  destruct (Value.best_match_step (known_words words) b x); [|reflexivity].
  now apply IH.
Qed.

(** Every set of template words, tried. *)
Lemma scan_table :
  forallb (fun ws => scan_winner_ok
                       (Value.best_match_loop ws catalog (None, 0%Q)))
          (sublists template_words) = true.
Proof. vm_cast_no_check (@eq_refl bool true). Qed.

Lemma maneuver_eqb_eq m m' : maneuver_eqb m m' = true -> m = m'.
Proof.
  destruct m as [a [b|]], m' as [a' [b'|]]; unfold maneuver_eqb; cbn [fst snd];
    intros [Ha Hb]%andb_prop; try discriminate;
    apply String.eqb_eq in Ha; subst; [|reflexivity].
  apply String.eqb_eq in Hb. now subst.
Qed.

Lemma value_loop_maneuver words b :
  Value.best_match_loop words catalog (None, 0%Q) = Ok b ->
  forall d, fst b = Some d ->
            exists m, maneuver d = Some m /\ In m scan_maneuvers.
Proof.
  intros Hb d Hd.
  rewrite (value_loop_known_words words catalog catalog_vocabulary) in Hb.
  pose proof scan_table as Htab. rewrite forallb_forall in Htab.
  specialize (Htab (known_words words) (filter_in_sublists _ _)).
  rewrite Hb in Htab. destruct b as [bm bs]. cbn [fst] in Hd. subst bm.
  cbn [scan_winner_ok] in Htab.
  destruct (maneuver d) as [m|]; [|discriminate].
  apply existsb_exists in Htab as (m' & Hin & Heq).
  apply maneuver_eqb_eq in Heq. subst m'. exists m.
  split; [reflexivity|exact Hin].
Qed.

Lemma get_set_other d k v k' :
  k <> k' -> Dict.get (Dict.set d k v) k' = Dict.get d k'.
Proof.
  intros Hne. induction d as [|[k0 v0] d IH]; simpl.
  - destruct (String.eqb k k') eqn:E; [|easy].
    apply String.eqb_eq in E. contradiction.
  - destruct (String.eqb k0 k) eqn:E; simpl.
    + apply String.eqb_eq in E. subst k0.
      destruct (String.eqb k k') eqn:E'; [|easy].
      apply String.eqb_eq in E'. contradiction.
    + now rewrite IH.
Qed.

End ScanTable.

(** X5.  Off the exact-match path the command is one of: move forward,
    move backward, turn left, turn right, strafe left, stop.  The four
    diagonal movements and the strafe to the right are produced by an
    exact phrase only: in a longer text an earlier phrase of the catalog
    ("forward", "backward", "left", "right", "strafe left") always scores
    at least as much. *)
Theorem scan_never_yields_diagonal st text d :
  catalog_intact st ->
  no_exact_match text ->
  returned_value (parse_command_from_text text st) = Ok (Some d) ->
  exists m, maneuver d = Some m /\ In m scan_maneuvers.
Proof.
  intros Hst Hno Hret.
  rewrite (returned_value_parse text st Hst) in Hret.
  destruct (value_parse_no_exact text Hno) as (v & b & _ & Hb & Hp).
  rewrite Hp in Hret. injection Hret as Hc. unfold Value.compose in Hc.
  destruct (fst b) as [t|] eqn:Ht; [|discriminate].
  destruct (truthy (PDict t)); [|discriminate]. injection Hc as <-.
  destruct (value_loop_maneuver _ _ Hb t Ht) as (m & Hm & Hin).
  exists m. split; [|exact Hin].
  destruct (truthy v); [|exact Hm].
  unfold maneuver in *. now rewrite !get_set_other by discriminate.
Qed.

Lemma scan_never_yields_diagonal_witness :
  returned_value (parse_command_from_text "strafe right now" initial_state)
  = Ok (Some (template "turn" (PStr "right") (PStr "normal")))
  /\ exists m, maneuver (template "turn" (PStr "right") (PStr "normal")) = Some m
               /\ In m scan_maneuvers.
Proof.
  assert (H : returned_value
                (parse_command_from_text "strafe right now" initial_state)
              = Ok (Some (template "turn" (PStr "right") (PStr "normal"))))
    by (vm_compute; reflexivity).
  split; [exact H|].
  apply (scan_never_yields_diagonal initial_state "strafe right now");
    [split; reflexivity | reflexivity | exact H].
Defined.

(** * Further properties of the transcription gateway *)

Section PollingTrace.

Lemma polls_rounds k : polls (polling_rounds k) = k.
Proof. induction k as [|k IH]; [easy|]. unfold polls in *. simpl. now rewrite IH. Qed.

Lemma slept_rounds k : slept (polling_rounds k) = Z.of_nat k.
Proof.
  induction k as [|k IH]; [easy|]. unfold slept in *. cbn [polling_rounds fold_right].
  rewrite IH. unfold wait_interval. lia.
Qed.

(** While the job is pending the loop polls, sleeps and goes round. *)
Lemma poll_loop_pending k :
  forall elapsed_time w rt,
    (elapsed_time + Z.of_nat k <= max_wait_time)%Z ->
    job_pending_for w (polls (events rt)) k ->
    poll_loop elapsed_time w rt
    = poll_loop (elapsed_time + Z.of_nat k) w
        (MkRuntime (py rt) (events rt ++ polling_rounds k)).
Proof.
  induction k as [|k IH]; intros elapsed_time w rt Hfit Hpend.
  { rewrite Z.add_0_r, app_nil_r. now destruct rt. }
  rewrite poll_loop_body.
  destruct (Z_lt_dec elapsed_time max_wait_time) as [_|Hge]; [|lia].
  unfold poll_job.
  destruct (Hpend 0 ltac:(lia)) as (status & Hs & Hp).
  rewrite Nat.add_0_r in Hs. rewrite Hs.
  unfold pending in Hp. apply andb_prop in Hp as [Hc Hf].
  apply negb_true_iff in Hc, Hf. rewrite Hc, Hf. cbn [py events].
  rewrite IH.
  - cbn [py events polling_rounds]. rewrite <- !app_assoc. cbn [app].
    f_equal. unfold wait_interval. lia.
  - unfold wait_interval. lia.
  - intros j Hj. cbn [events]. rewrite !polls_app. cbn.
    replace (polls (events rt) + 1 + 0 + j) with (polls (events rt) + S j)
      by lia.
    apply Hpend. lia.
Qed.

(** The loop reads the world through the job status and the transcript
    only. *)
Lemma poll_loop_ext n :
  forall elapsed_time w w' rt,
    Z.to_nat (max_wait_time - elapsed_time) <= n ->
    get_transcription_job w = get_transcription_job w' ->
    get_transcript w = get_transcript w' ->
    poll_loop elapsed_time w rt = poll_loop elapsed_time w' rt.
Proof.
  induction n as [|n IH]; intros elapsed_time w w' rt Hn Hg Ht;
    rewrite !(poll_loop_body elapsed_time);
    destruct (Z_lt_dec elapsed_time max_wait_time) as [Hlt|Hge];
    try reflexivity; try lia.
  unfold poll_job, call. rewrite Hg, Ht.
  destruct (get_transcription_job w' (polls (events rt))); [|reflexivity].
  destruct (String.eqb a "COMPLETED"); [reflexivity|].
  destruct (String.eqb a "FAILED"); [reflexivity|].
  apply IH; [unfold wait_interval; lia|easy..].
Qed.

(** The loop logs polls, sleeps and the transcript fetch, nothing else. *)
Lemma poll_loop_job_events n :
  forall elapsed_time w rt,
    Z.to_nat (max_wait_time - elapsed_time) <= n ->
    exists new,
      events (snd (poll_loop elapsed_time w rt)) = events rt ++ new
      /\ forallb is_job_event new = true.
Proof.
  induction n as [|n IH]; intros elapsed_time w rt Hn;
    rewrite poll_loop_body;
    destruct (Z_lt_dec elapsed_time max_wait_time) as [Hlt|Hge];
    try lia; try (exists []; now rewrite app_nil_r).
  unfold poll_job.
  destruct (get_transcription_job w (polls (events rt))) as [status|msg];
    [|now exists [EGetJob]].
  destruct (String.eqb status "COMPLETED").
  { unfold call. cbn [events py]. exists [EGetJob; EGetTranscript].
    destruct (get_transcript w); cbn [snd events]; now rewrite <- app_assoc. }
  destruct (String.eqb status "FAILED"); [now exists [EGetJob]|].
  cbn [events py].
  destruct (IH (elapsed_time + wait_interval)%Z w
              (MkRuntime (py rt)
                 ((events rt ++ [EGetJob]) ++ [ESleep wait_interval])))
    as (new & Hev & Hall); [unfold wait_interval; lia|].
  exists ([EGetJob; ESleep wait_interval] ++ new).
  rewrite Hev. cbn [events]. rewrite <- !app_assoc. split; [reflexivity|].
  exact Hall.
Qed.

End PollingTrace.

(** X6.  When the job can be started, is found pending by the first [k]
    polls ([k < 30]) and completed by the next one, and the transcript can
    be fetched, [transcribe_audio] returns the transcript lower-cased and
    trimmed, after exactly [k + 1] polls and [k] sleeps of one second, and
    then deletes the job. *)
Theorem transcript_comes_back w rt k text :
  start_transcription_job w = Ok tt ->
  k < 30 ->
  job_pending_for w (polls (events rt)) k ->
  get_transcription_job w (polls (events rt) + k) = Ok "COMPLETED" ->
  get_transcript w = Ok text ->
  transcribe_audio w rt
  = (Ok (Some (normalized text)),
     MkRuntime (py rt)
       (events rt ++ [EStartJob] ++ polling_rounds k
        ++ [EGetJob; EGetTranscript; EDeleteJob])).
Proof.
  intros Hstart Hk Hpend Hdone Htext.
  rewrite transcribe_audio_body. cbn zeta. rewrite Hstart.
  set (rt1 := MkRuntime (py rt) (events rt ++ [EStartJob])).
  assert (Hp1 : polls (events rt1) = polls (events rt)).
  { unfold rt1. cbn [events]. rewrite polls_app. cbn. lia. }
  rewrite (poll_loop_pending k 0%Z w rt1);
    [|unfold max_wait_time; lia|now rewrite Hp1].
  rewrite poll_loop_body.
  destruct (Z_lt_dec (0 + Z.of_nat k) max_wait_time) as [_|Hge];
    [|unfold max_wait_time in Hge; lia].
  unfold poll_job, call. cbn [events py].
  rewrite polls_app, polls_rounds, Hp1, Hdone.
  change (String.eqb "COMPLETED" "COMPLETED") with true. cbv iota.
  rewrite Htext. cbn [fst snd events py]. unfold rt1, normalized.
  cbn [events py]. rewrite <- !app_assoc. reflexivity.
Qed.

Lemma transcript_comes_back_witness :
  fst (transcribe_audio (world_ok " Turn Left") runtime0)
  = Ok (Some "turn left")
  /\ new_events runtime0 (snd (transcribe_audio (world_ok " Turn Left") runtime0))
     = [EStartJob; EGetJob; ESleep 1; EGetJob; ESleep 1; EGetJob; ESleep 1;
        EGetJob; EGetTranscript; EDeleteJob].
Proof.
  rewrite (transcript_comes_back (world_ok " Turn Left") runtime0 3 " Turn Left").
  - split; reflexivity.
  - reflexivity.
  - lia.
  - intros j Hj. exists "IN_PROGRESS". split; [|reflexivity].
    cbn. destruct j as [|[|[|j]]]; [reflexivity..|lia].
  - reflexivity.
  - reflexivity.
Defined.

(** X7.  The ways [transcribe_audio] ends without a transcript, with what
    it did on the way.  A job that cannot be started is not polled.  A
    job found pending [k] times and then failed ends the loop at once,
    without a further sleep.  A completed job whose transcript cannot be
    fetched or read gives [None] as well.  A job pending at all 30 polls
    is given up after exactly 30 polls and 30 seconds of sleep.  The job
    is deleted in every case. *)
Theorem no_transcript_traces w rt :
  ((exists msg, start_transcription_job w = Raise msg) ->
   transcribe_audio w rt
   = (Ok None, MkRuntime (py rt) (events rt ++ [EStartJob; EDeleteJob])))
  /\ (forall k,
         start_transcription_job w = Ok tt ->
         k < 30 ->
         job_pending_for w (polls (events rt)) k ->
         get_transcription_job w (polls (events rt) + k) = Ok "FAILED" ->
         transcribe_audio w rt
         = (Ok None,
            MkRuntime (py rt)
              (events rt ++ [EStartJob] ++ polling_rounds k
               ++ [EGetJob; EDeleteJob])))
  /\ (forall k,
         start_transcription_job w = Ok tt ->
         k < 30 ->
         job_pending_for w (polls (events rt)) k ->
         get_transcription_job w (polls (events rt) + k) = Ok "COMPLETED" ->
         (exists msg, get_transcript w = Raise msg) ->
         transcribe_audio w rt
         = (Ok None,
            MkRuntime (py rt)
              (events rt ++ [EStartJob] ++ polling_rounds k
               ++ [EGetJob; EGetTranscript; EDeleteJob])))
  /\ (start_transcription_job w = Ok tt ->
      job_pending_for w (polls (events rt)) 30 ->
      transcribe_audio w rt
      = (Ok None,
         MkRuntime (py rt)
           (events rt ++ [EStartJob] ++ polling_rounds 30 ++ [EDeleteJob]))).
Proof.
  set (rt1 := MkRuntime (py rt) (events rt ++ [EStartJob])).
  assert (Hp1 : polls (events rt1) = polls (events rt)).
  { unfold rt1. cbn [events]. rewrite polls_app. cbn. lia. }
  split; [|split; [|split]].
  - intros [msg Hmsg]. rewrite transcribe_audio_body. cbn zeta. rewrite Hmsg.
    cbn [fst snd events py]. now rewrite <- app_assoc.
  - intros k Hstart Hk Hpend Hfail.
    rewrite transcribe_audio_body. cbn zeta. rewrite Hstart. fold rt1.
    rewrite (poll_loop_pending k 0%Z w rt1);
      [|unfold max_wait_time; lia|now rewrite Hp1].
    rewrite poll_loop_body.
    destruct (Z_lt_dec (0 + Z.of_nat k) max_wait_time) as [_|Hge];
      [|unfold max_wait_time in Hge; lia].
    unfold poll_job. cbn [events py].
    rewrite polls_app, polls_rounds, Hp1, Hfail.
    change (String.eqb "FAILED" "COMPLETED") with false.
    change (String.eqb "FAILED" "FAILED") with true. cbv iota.
    cbn [fst snd events py]. unfold rt1. cbn [events py].
    rewrite <- !app_assoc. reflexivity.
  - intros k Hstart Hk Hpend Hdone [msg Hmsg].
    rewrite transcribe_audio_body. cbn zeta. rewrite Hstart. fold rt1.
    rewrite (poll_loop_pending k 0%Z w rt1);
      [|unfold max_wait_time; lia|now rewrite Hp1].
    rewrite poll_loop_body.
    destruct (Z_lt_dec (0 + Z.of_nat k) max_wait_time) as [_|Hge];
      [|unfold max_wait_time in Hge; lia].
    unfold poll_job, call. cbn [events py].
    rewrite polls_app, polls_rounds, Hp1, Hdone.
  change (String.eqb "COMPLETED" "COMPLETED") with true. cbv iota.
    rewrite Hmsg. cbn [fst snd events py]. unfold rt1. cbn [events py].
    rewrite <- !app_assoc. reflexivity.
  - intros Hstart Hpend.
    rewrite transcribe_audio_body. cbn zeta. rewrite Hstart. fold rt1.
    rewrite (poll_loop_pending 30 0%Z w rt1);
      [|unfold max_wait_time; lia|now rewrite Hp1].
    rewrite poll_loop_body.
    destruct (Z_lt_dec (0 + Z.of_nat 30) max_wait_time) as [Hlt|_];
      [unfold max_wait_time in Hlt; lia|].
    cbn [fst snd events py]. unfold rt1. cbn [events py].
    rewrite <- !app_assoc. reflexivity.
Qed.

Lemma no_transcript_traces_witness :
  fst (transcribe_audio world_slow_job runtime0) = Ok None
  /\ polls (new_events runtime0 (snd (transcribe_audio world_slow_job runtime0)))
     = 30
  /\ slept (new_events runtime0 (snd (transcribe_audio world_slow_job runtime0)))
     = 30%Z.
Proof.
  destruct (no_transcript_traces world_slow_job runtime0) as (_ & _ & _ & H).
  rewrite H.
  - repeat split.
  - reflexivity.
  - intros j _. exists "IN_PROGRESS". split; reflexivity.
Defined.

Section GatewayEvents.

(** What [transcribe_audio] logs: the start of the job, the events of
    the loop, the deletion of the job. *)
Lemma transcribe_audio_events w rt :
  exists mid,
    events (snd (transcribe_audio w rt))
    = events rt ++ EStartJob :: mid ++ [EDeleteJob]
    /\ forallb is_job_event mid = true.
Proof.
  rewrite transcribe_audio_body. cbn zeta.
  destruct (start_transcription_job w).
  2:{ exists []. cbn [fst snd events py]. now rewrite <- app_assoc. }
  destruct (poll_loop_job_events 30 0%Z w
              (MkRuntime (py rt) (events rt ++ [EStartJob])) ltac:(easy))
    as (new & Hev & Hall).
  exists new. split; [|exact Hall].
  destruct (poll_loop 0%Z w _) as [[t|msg] rt2]; cbn [fst snd events py] in *;
    rewrite Hev, <- !app_assoc; reflexivity.
Qed.

(** [transcribe_audio] reads the world through the four calls to the
    transcription service only. *)
Lemma transcribe_audio_ext w w' rt :
  start_transcription_job w = start_transcription_job w' ->
  get_transcription_job w = get_transcription_job w' ->
  get_transcript w = get_transcript w' ->
  transcribe_audio w rt = transcribe_audio w' rt.
Proof.
  intros Hs Hg Ht. rewrite !transcribe_audio_body. cbn zeta. rewrite Hs.
  now rewrite (poll_loop_ext 30 0%Z w w').
Qed.

End GatewayEvents.

(** X8.  Whatever happens, the last thing [transcribe_audio] does is to
    ask for the deletion of the job, once; before that it starts the job
    and polls, sleeps and fetches the transcript, nothing else.  The
    answer to the deletion, an exception included, changes nothing to
    what is returned. *)
Theorem job_is_deleted_on_every_path w rt :
  (exists mid,
      events (snd (transcribe_audio w rt))
      = events rt ++ EStartJob :: mid ++ [EDeleteJob]
      /\ forallb is_job_event mid = true)
  /\ forall r, transcribe_audio (with_delete_job r w) rt
               = transcribe_audio w rt.
Proof.
  split; [apply transcribe_audio_events|].
  intros r. now apply transcribe_audio_ext.
Qed.

(** * Further properties of the pipeline and the handler *)

Section Pipeline.

(** On the catalog the matcher raises nothing. *)
Lemma value_parse_ok text : exists r, Value.parse catalog text = Ok r.
Proof.
  destruct (Value.lookup catalog (normalized text)) as [d|] eqn:Hl.
  - exists (Some d). unfold Value.parse. fold (normalized text). now rewrite Hl.
  - destruct (value_parse_no_exact text Hl) as (v & b & _ & _ & Hp).
    now exists (Value.compose v (fst b)).
Qed.

(** A returned command is never an empty dictionary. *)
Lemma value_parse_truthy text d :
  Value.parse catalog text = Ok (Some d) -> truthy (PDict d) = true.
Proof.
  destruct (Value.lookup catalog (normalized text)) as [d'|] eqn:Hl.
  - unfold Value.parse. fold (normalized text). rewrite Hl. intros [= <-].
    apply lookup_In in Hl.
    destruct (catalog_shape _ d' Hl) as [(_ & Hk & _)|(_ & v & -> & _)];
      [|reflexivity].
    now destruct (template_shape d' Hk) as (_ & _ & _ & ->).
  - destruct (value_parse_no_exact text Hl) as (v & b & _ & _ & ->).
    intros [= Hc]. unfold Value.compose in Hc.
    destruct (fst b) as [t|]; [|discriminate].
    destruct (truthy (PDict t)) eqn:Ht; [|discriminate].
    injection Hc as <-. destruct (truthy v); [|exact Ht].
    destruct t as [|[k0 v0] t]; [discriminate|].
    simpl. now destruct (String.eqb k0 "speed").
Qed.

(** The pipeline once a non-empty transcript is there: the matcher runs,
    a command gets the rover address if one was given, the uploaded
    object is deleted, and the command is returned. *)
Lemma process_voice_command_with_transcript
    audio_data rover_ip w rt audio_bytes bucket_name text rt2 :
  catalog_intact (py rt) ->
  b64decode w audio_data = Ok audio_bytes ->
  environ_AUDIO_BUCKET w = Ok bucket_name ->
  put_object w = Ok tt ->
  transcribe_audio w (MkRuntime (py rt) (events rt ++ [EPutObject]))
  = (Ok (Some text), rt2) ->
  text <> "" ->
  exists st',
    catalog_intact st' /\ frame (py rt) st'
    /\ match Value.parse catalog text with
       | Ok (Some d) =>
           exists l,
             process_voice_command audio_data rover_ip w rt
             = (Ok (Some l),
                MkRuntime st' (events rt2 ++ [EDeleteObject]))
             /\ length (heap (py rt)) <= l
             /\ heap st' !! l
                = Some (if truthy rover_ip
                        then Dict.set d "rover_ip" rover_ip else d)
       | Ok None =>
           process_voice_command audio_data rover_ip w rt
           = (Ok None, MkRuntime st' (events rt2 ++ [EDeleteObject]))
       | Raise _ => False
       end.
Proof.
  intros Hst Hb He Hp Ht Hne.
  assert (Hpy2 : py rt2 = py rt).
  { pose proof (transcribe_audio_py w
                  (MkRuntime (py rt) (events rt ++ [EPutObject]))) as H.
    now rewrite Ht in H. }
  assert (Htr : truthy (PStr text) = true).
  { simpl. destruct text; [contradiction|reflexivity]. }
  destruct (parse_command_from_text_value text (py rt) Hst)
    as (r & st1 & Hrun & Hst1 & Hfr1 & Hrel).
  unfold result_rel in Hrel.
  destruct (value_parse_ok text) as (v & Hv). rewrite Hv in Hrel |- *.
  assert (Hstart :
            process_voice_command audio_data rover_ip w rt
            = match
                (match r with
                 | Ok command =>
                     io_bind
                       (match command with
                        | Some l =>
                            io_bind (lift (deref l))
                              (fun d =>
                                 if truthy (PDict d) && truthy rover_ip
                                 then lift (dict_setitem l "rover_ip" rover_ip)
                                 else io_ret tt)
                        | None => io_ret tt
                        end)
                       (fun _ =>
                          io_bind
                            (try_except (call EDeleteObject delete_object)
                               (fun _ => io_ret tt))
                            (fun _ => io_ret command))
                       w (MkRuntime st1 (events rt2))
                 | Raise msg => (Raise msg, MkRuntime st1 (events rt2))
                 end)
              with
              | (Ok a, rt') => (Ok a, rt')
              | (Raise _, rt') => (Ok None, rt')
              end).
  { unfold process_voice_command, try_except at 1.
    unfold io_bind at 1, io_raise_or at 1. rewrite Hb.
    unfold io_bind at 1, io_raise_or at 1. rewrite He.
    unfold io_bind at 1, call at 1. rewrite Hp.
    unfold io_bind at 1. rewrite Ht. rewrite Htr. cbn [negb].
    unfold io_bind at 1, lift at 1. rewrite Hpy2, Hrun.
    destruct r; reflexivity. }
  rewrite Hstart. clear Hstart.
  destruct v as [d|], r as [[l|]|]; try easy.
  - destruct Hrel as [Hfresh Hl].
    pose proof (value_parse_truthy text d Hv) as Hd.
    assert (Hout : outside_catalog l).
    { unfold outside_catalog. destruct Hst as [_ Hpre].
      apply prefix_length in Hpre. lia. }
    unfold io_bind at 1. unfold io_bind at 1, lift at 1, deref at 1.
    cbn [py events]. rewrite Hl, Hd. cbn [andb].
    destruct (truthy rover_ip) eqn:Hip.
    + destruct (dict_setitem_outside st1 l d "rover_ip" rover_ip Hst1 Hout Hl)
        as (st2 & Hset & Hl2 & Hother & Hst2).
      unfold lift at 1. cbn [py events]. rewrite Hset.
      unfold io_bind, try_except, call, io_ret. cbn [py events].
      exists st2. split; [exact Hst2|]. split.
      { intros l' Hl'. rewrite Hother by lia. now apply Hfr1. }
      exists l. split; [|split; [exact Hfresh|exact Hl2]].
      destruct (delete_object w); reflexivity.
    + unfold io_bind, try_except, call, io_ret. cbn [py events].
      exists st1. split; [exact Hst1|]. split; [exact Hfr1|].
      exists l. split; [|split; [exact Hfresh|exact Hl]].
      destruct (delete_object w); reflexivity.
  - unfold io_bind, io_ret, try_except, call. cbn [py events].
    exists st1. split; [exact Hst1|]. split; [exact Hfr1|].
    destruct (delete_object w); reflexivity.
Qed.

End Pipeline.

Section Cleanup.

(** The pipeline reads the answer to [delete_object] nowhere. *)
Lemma process_voice_command_delete_object audio_data rover_ip w rt r :
  process_voice_command audio_data rover_ip (with_delete_object r w) rt
  = process_voice_command audio_data rover_ip w rt.
Proof.
  unfold process_voice_command, try_except, io_bind, io_raise_or, call, io_ret.
  cbn [with_delete_object b64decode environ_AUDIO_BUCKET put_object
       delete_object].
  destruct (b64decode w audio_data); [|reflexivity].
  destruct (environ_AUDIO_BUCKET w); [|reflexivity].
  destruct (put_object w); [|reflexivity].
  rewrite (transcribe_audio_ext (with_delete_object r w) w) by reflexivity.
  destruct (transcribe_audio w _) as [[[text|]|msg] rt2]; try reflexivity.
  destruct (negb (truthy (PStr text))); [reflexivity|].
  unfold lift.
  destruct (parse_command_from_text text (py rt2)) as [[command|msg] st1];
    [|reflexivity].
  cbn [py events].
  destruct command as [l|]; cbn [py events].
  - unfold deref. cbn [py events].
    destruct (heap st1 !! l) as [d|]; [|reflexivity].
    destruct (truthy (PDict d) && truthy rover_ip).
    + unfold dict_setitem. cbn [py events].
      destruct (heap st1 !! l); [|reflexivity].
      destruct r, (delete_object w); reflexivity.
    + destruct r, (delete_object w); reflexivity.
  - destruct r, (delete_object w); reflexivity.
Qed.

(** Without a usable transcript the pipeline stops before the clean-up. *)
Lemma process_voice_command_no_transcript
    audio_data rover_ip w rt audio_bytes bucket_name transcript rt2 :
  b64decode w audio_data = Ok audio_bytes ->
  environ_AUDIO_BUCKET w = Ok bucket_name ->
  put_object w = Ok tt ->
  transcribe_audio w (MkRuntime (py rt) (events rt ++ [EPutObject]))
  = (Ok transcript, rt2) ->
  transcript = None \/ transcript = Some "" ->
  process_voice_command audio_data rover_ip w rt = (Ok None, rt2).
Proof.
  intros Hb He Hp Ht Hnone.
  unfold process_voice_command, try_except.
  unfold io_bind at 1, io_raise_or at 1. rewrite Hb.
  unfold io_bind at 1, io_raise_or at 1. rewrite He.
  unfold io_bind at 1, call at 1. rewrite Hp.
  unfold io_bind at 1. rewrite Ht.
  destruct Hnone as [->| ->]; reflexivity.
Qed.

End Cleanup.

(** X9.  The uploaded audio.  Once a non-empty transcript is there, the
    pipeline asks for the deletion of the uploaded object after the
    matcher has run, whether or not a command was recognized.  Without a
    usable transcript (none, or an empty one) it returns before the
    clean-up: the object was uploaded and its deletion is never asked
    for.  The answer to the deletion, an exception included, changes
    nothing to what the pipeline returns. *)
Theorem uploaded_audio_cleanup audio_data rover_ip w rt audio_bytes bucket_name :
  b64decode w audio_data = Ok audio_bytes ->
  environ_AUDIO_BUCKET w = Ok bucket_name ->
  put_object w = Ok tt ->
  (forall text rt2,
      catalog_intact (py rt) ->
      transcribe_audio w (MkRuntime (py rt) (events rt ++ [EPutObject]))
      = (Ok (Some text), rt2) ->
      text <> "" ->
      events (snd (process_voice_command audio_data rover_ip w rt))
      = events rt2 ++ [EDeleteObject])
  /\ (forall transcript rt2,
         transcribe_audio w (MkRuntime (py rt) (events rt ++ [EPutObject]))
         = (Ok transcript, rt2) ->
         transcript = None \/ transcript = Some "" ->
         fst (process_voice_command audio_data rover_ip w rt) = Ok None
         /\ exists mid,
              events (snd (process_voice_command audio_data rover_ip w rt))
              = events rt ++ EPutObject :: EStartJob :: mid ++ [EDeleteJob]
              /\ forallb is_job_event mid = true)
  /\ (forall r,
         process_voice_command audio_data rover_ip (with_delete_object r w) rt
         = process_voice_command audio_data rover_ip w rt).
Proof.
  intros Hb He Hp. split; [|split].
  - intros text rt2 Hst Ht Hne.
    destruct (process_voice_command_with_transcript audio_data rover_ip w rt
                audio_bytes bucket_name text rt2 Hst Hb He Hp Ht Hne)
      as (st' & _ & _ & Hrun).
    destruct (Value.parse catalog text) as [[d|]|]; [| |easy].
    + destruct Hrun as (l & -> & _). reflexivity.
    + now rewrite Hrun.
  - intros transcript rt2 Ht Hnone.
    rewrite (process_voice_command_no_transcript audio_data rover_ip w rt
               audio_bytes bucket_name transcript rt2 Hb He Hp Ht Hnone).
    split; [reflexivity|]. cbn [snd].
    destruct (transcribe_audio_events w
                (MkRuntime (py rt) (events rt ++ [EPutObject])))
      as (mid & Hev & Hall).
    rewrite Ht in Hev. cbn [snd events] in Hev. exists mid.
    split; [|exact Hall]. rewrite Hev, <- app_assoc. reflexivity.
  - intros r. apply process_voice_command_delete_object.
Qed.

Lemma uploaded_audio_cleanup_witness :
  new_events runtime0
    (snd (process_voice_command (PStr "UklGRg==") PNone
            (with_delete_object (Raise "AccessDenied") (world_ok "Stop"))
            runtime0))
  = [EPutObject; EStartJob; EGetJob; ESleep 1; EGetJob; ESleep 1;
     EGetJob; ESleep 1; EGetJob; EGetTranscript; EDeleteJob; EDeleteObject]
  /\ new_events runtime0
       (snd (process_voice_command (PStr "UklGRg==") PNone world_slow_job
               runtime0))
     = [EPutObject; EStartJob] ++ polling_rounds 30 ++ [EDeleteJob].
Proof.
  destruct (uploaded_audio_cleanup (PStr "UklGRg==") PNone (world_ok "Stop")
              runtime0 "RIFF" "rover-audio" eq_refl eq_refl eq_refl)
    as (Hdel & _ & Hany).
  destruct (uploaded_audio_cleanup (PStr "UklGRg==") PNone world_slow_job
              runtime0 "RIFF" "rover-audio" eq_refl eq_refl eq_refl)
    as (_ & Hskip & _).
  split.
  - rewrite Hany. unfold new_events.
    rewrite (Hdel "stop"
               (snd (transcribe_audio (world_ok "Stop")
                       (MkRuntime (py runtime0)
                          (events runtime0 ++ [EPutObject]))))).
    + vm_compute. reflexivity.
    + split; reflexivity.
    + vm_compute. reflexivity.
    + discriminate.
  - destruct (Hskip None
                (snd (transcribe_audio world_slow_job
                        (MkRuntime (py runtime0)
                           (events runtime0 ++ [EPutObject])))))
      as (_ & mid & Hev & _).
    + vm_compute. reflexivity.
    + now left.
    + vm_compute. reflexivity.
Defined.

Section HandlerOutcome.

(** Past the validation, a command returned by the pipeline is sent back
    with status 200. *)
Lemma lambda_handler_command event w rt audio_data rover_ip l rt' (d : dict) :
  request_audio w event audio_data rover_ip ->
  process_voice_command audio_data rover_ip w rt = (Ok (Some l), rt') ->
  heap (py rt') !! l = Some d ->
  truthy (PDict d) = true ->
  lambda_handler event w rt
  = (Ok (MkResponse 200 cors_headers
           (PDict [("success", PBool true); ("command", PDict d);
                   ("timestamp", PInt (time w))])), rt').
Proof.
  intros (event_body & body & Hev & Hbody & Hhas & Haudio & Hip) Hrun Hl Hd.
  unfold lambda_handler, try_except. unfold Dict.has. rewrite Hev. cbn [negb].
  unfold io_bind at 1, io_raise_or at 1. cbn [py_getitem]. rewrite Hev.
  unfold io_bind at 1, io_raise_or at 1. rewrite Hbody.
  unfold io_bind at 1, io_raise_or at 1. rewrite Hhas. cbn [negb].
  unfold io_bind at 1, io_raise_or at 1. rewrite Haudio.
  unfold io_bind at 1, io_raise_or at 1. rewrite Hip.
  unfold io_bind at 1. rewrite Hrun.
  unfold io_bind at 1, lift at 1, deref at 1. cbv beta. rewrite Hl, Hd.
  destruct rt'. reflexivity.
Qed.

Lemma set_truthy d k v : truthy (PDict (Dict.set d k v)) = true.
Proof.
  destruct d as [|[k0 v0] d]; [reflexivity|]. simpl.
  now destruct (String.eqb k0 k).
Qed.

(** The state after the pipeline: the catalog is there and no earlier
    object has changed. *)
Lemma process_voice_command_state audio_data rover_ip w rt :
  catalog_intact (py rt) ->
  catalog_intact (py (snd (process_voice_command audio_data rover_ip w rt)))
  /\ frame (py rt)
           (py (snd (process_voice_command audio_data rover_ip w rt))).
Proof.
  intros Hst.
  assert (Hsame : forall rt',
             py rt' = py rt -> catalog_intact (py rt') /\ frame (py rt) (py rt')).
  { intros rt' ->. split; [exact Hst|]. now intros l _. }
  destruct (b64decode w audio_data) as [audio_bytes|msg] eqn:Hb.
  2:{ apply Hsame. unfold process_voice_command, try_except.
      unfold io_bind at 1, io_raise_or at 1. now rewrite Hb. }
  destruct (environ_AUDIO_BUCKET w) as [bucket_name|msg] eqn:He.
  2:{ apply Hsame. unfold process_voice_command, try_except.
      unfold io_bind at 1, io_raise_or at 1. rewrite Hb.
      unfold io_bind at 1, io_raise_or at 1. now rewrite He. }
  destruct (put_object w) as [[]|msg] eqn:Hp.
  2:{ apply Hsame. unfold process_voice_command, try_except.
      unfold io_bind at 1, io_raise_or at 1. rewrite Hb.
      unfold io_bind at 1, io_raise_or at 1. rewrite He.
      unfold io_bind at 1, call at 1. now rewrite Hp. }
  pose proof (transcribe_audio_py w
                (MkRuntime (py rt) (events rt ++ [EPutObject]))) as Hpy.
  destruct (transcribe_audio w (MkRuntime (py rt) (events rt ++ [EPutObject])))
    as [[transcript|msg] rt2] eqn:Ht; cbn [snd py] in Hpy.
  2:{ apply Hsame. unfold process_voice_command, try_except.
      unfold io_bind at 1, io_raise_or at 1. rewrite Hb.
      unfold io_bind at 1, io_raise_or at 1. rewrite He.
      unfold io_bind at 1, call at 1. rewrite Hp.
      unfold io_bind at 1. now rewrite Ht. }
  destruct transcript as [text|].
  2:{ apply Hsame.
      now rewrite (process_voice_command_no_transcript audio_data rover_ip w rt
                     audio_bytes bucket_name None rt2 Hb He Hp Ht
                     (or_introl eq_refl)). }
  destruct (String.eqb text "") eqn:Hempty.
  { apply String.eqb_eq in Hempty. subst text. apply Hsame.
    now rewrite (process_voice_command_no_transcript audio_data rover_ip w rt
                   audio_bytes bucket_name (Some "") rt2 Hb He Hp Ht
                   (or_intror eq_refl)). }
  apply String.eqb_neq in Hempty.
  destruct (process_voice_command_with_transcript audio_data rover_ip w rt
              audio_bytes bucket_name text rt2 Hst Hb He Hp Ht Hempty)
    as (st' & Hst' & Hfr & Hrun).
  destruct (Value.parse catalog text) as [[d|]|]; [| |easy].
  - destruct Hrun as (l & -> & _). now split.
  - rewrite Hrun. now split.
Qed.

(** The handler leaves the interpreter state as the pipeline left it, or
    as it found it. *)
Lemma lambda_handler_state event w rt :
  py (snd (lambda_handler event w rt)) = py rt
  \/ exists audio_data rover_ip,
       py (snd (lambda_handler event w rt))
       = py (snd (process_voice_command audio_data rover_ip w rt)).
Proof.
  unfold lambda_handler, try_except, io_bind, io_raise_or,
    create_error_response, create_success_response, lift, deref.
  destruct (negb (Dict.has event "body")); [left; reflexivity|].
  destruct (py_getitem (PDict event) "body") as [event_body|];
    [|left; reflexivity].
  destruct (decode_body w event_body) as [body|]; [|left; reflexivity].
  destruct (py_contains body "audio") as [has_audio|]; [|left; reflexivity].
  destruct (negb has_audio); [left; reflexivity|].
  destruct (py_getitem body "audio") as [audio_data|]; [|left; reflexivity].
  destruct (py_get body "rover_ip") as [rover_ip|]; [|left; reflexivity].
  right. exists audio_data, rover_ip.
  destruct (process_voice_command audio_data rover_ip w rt)
    as [[[l|]|msg] rt']; try reflexivity.
  cbn [snd py]. destruct (heap (py rt') !! l) as [d|]; [|reflexivity].
  destruct (truthy (PDict d)); reflexivity.
Qed.

End HandlerOutcome.

(** X10.  When the request carries audio, the pipeline's calls succeed,
    the transcript is not empty and the matcher recognizes a command in
    it, the handler answers with status 200 and a body holding
    [success: true], the timestamp and the command; the command carries
    the [rover_ip] of the request exactly when one was given (a missing,
    null or empty address is not attached). *)
Theorem recognized_command_gets_200
    event w rt audio_data rover_ip audio_bytes bucket_name text rt2 d :
  catalog_intact (py rt) ->
  request_audio w event audio_data rover_ip ->
  b64decode w audio_data = Ok audio_bytes ->
  environ_AUDIO_BUCKET w = Ok bucket_name ->
  put_object w = Ok tt ->
  transcribe_audio w (MkRuntime (py rt) (events rt ++ [EPutObject]))
  = (Ok (Some text), rt2) ->
  text <> "" ->
  returned_value (parse_command_from_text text (py rt)) = Ok (Some d) ->
  fst (lambda_handler event w rt)
  = Ok (MkResponse 200 cors_headers
          (PDict [("success", PBool true);
                  ("command",
                   PDict (if truthy rover_ip
                          then Dict.set d "rover_ip" rover_ip else d));
                  ("timestamp", PInt (time w))])).
Proof.
  intros Hst Hreq Hb He Hp Ht Hne Hret.
  rewrite (returned_value_parse text (py rt) Hst) in Hret.
  destruct (process_voice_command_with_transcript audio_data rover_ip w rt
              audio_bytes bucket_name text rt2 Hst Hb He Hp Ht Hne)
    as (st' & _ & _ & Hrun).
  rewrite Hret in Hrun. destruct Hrun as (l & Hrun & _ & Hl).
  rewrite (lambda_handler_command event w rt audio_data rover_ip l _ _
             Hreq Hrun Hl); [reflexivity|].
  destruct (truthy rover_ip); [apply set_truthy|].
  exact (value_parse_truthy text d Hret).
Qed.

Lemma recognized_command_gets_200_witness :
  fst (lambda_handler
         [("body", PDict [("audio", PStr "UklGRg==");
                          ("rover_ip", PStr "192.168.4.1")])]
         (world_ok "Move forward.  ") runtime0)
  = Ok (MkResponse 200 cors_headers
          (PDict [("success", PBool true);
                  ("command",
                   PDict [("action", PStr "move");
                          ("direction", PStr "forward");
                          ("speed", PStr "normal");
                          ("rover_ip", PStr "192.168.4.1")]);
                  ("timestamp", PInt 1700000000)])).
Proof.
  apply (recognized_command_gets_200
           [("body", PDict [("audio", PStr "UklGRg==");
                            ("rover_ip", PStr "192.168.4.1")])]
           (world_ok "Move forward.  ") runtime0
           (PStr "UklGRg==") (PStr "192.168.4.1") "RIFF" "rover-audio"
           "move forward."
           (snd (transcribe_audio (world_ok "Move forward.  ")
                   (MkRuntime (py runtime0) (events runtime0 ++ [EPutObject]))))
           (template "move" (PStr "forward") (PStr "normal"))).
  - split; reflexivity.
  - exists (PDict [("audio", PStr "UklGRg==");
                   ("rover_ip", PStr "192.168.4.1")]),
           (PDict [("audio", PStr "UklGRg==");
                   ("rover_ip", PStr "192.168.4.1")]).
    repeat split; reflexivity.
  - reflexivity.
  - reflexivity.
  - reflexivity.
  - vm_compute. reflexivity.
  - discriminate.
  - vm_compute. reflexivity.
Defined.

(** X11.  A run of the handler that finds the catalog intact leaves it
    intact, and changes no object that existed before the run: the next
    invocation in the same process starts from the same catalog. *)
Theorem handler_keeps_catalog event w rt :
  catalog_intact (py rt) ->
  catalog_intact (py (snd (lambda_handler event w rt)))
  /\ frame (py rt) (py (snd (lambda_handler event w rt))).
Proof.
  intros Hst.
  destruct (lambda_handler_state event w rt) as [->|(a & r & ->)].
  - split; [exact Hst|]. now intros l _.
  - now apply process_voice_command_state.
Qed.

Lemma handler_keeps_catalog_witness :
  heap (py (snd (lambda_handler
                   [("body", PDict [("audio", PStr "UklGRg==");
                                    ("rover_ip", PStr "192.168.4.1")])]
                   (world_ok "stop") runtime0))) !! 19
  = Some (template "stop" PNone PNone).
Proof.
  destruct (handler_keeps_catalog
              [("body", PDict [("audio", PStr "UklGRg==");
                               ("rover_ip", PStr "192.168.4.1")])]
              (world_ok "stop") runtime0) as [_ Hfr].
  - split; reflexivity.
  - rewrite (Hfr 19); [reflexivity|]. vm_compute. lia.
Defined.

(** X12.  The handler answers every event, whatever the services do and
    whatever the state: no exception leaves it.  The response has status
    200, 400 or 500 and the cross-origin headers; its body holds
    [success], true exactly for status 200, the timestamp, and the
    command (status 200) or an error message (status 400 and 500). *)
Theorem handler_always_answers event w rt :
  exists resp rt',
    lambda_handler event w rt = (Ok resp, rt')
    /\ headers resp = cors_headers
    /\ (statusCode resp = 200 \/ statusCode resp = 400
        \/ statusCode resp = 500)%Z
    /\ exists kvs,
         body resp = PDict kvs
         /\ Dict.get kvs "success" = Some (PBool (statusCode resp =? 200)%Z)
         /\ Dict.get kvs "timestamp" = Some (PInt (time w))
         /\ (statusCode resp = 200%Z ->
             exists c, Dict.get kvs "command" = Some (PDict c))
         /\ (statusCode resp <> 200%Z ->
             exists msg, Dict.get kvs "error" = Some (PStr msg)).
Proof.
  assert (Herr : forall (status : Z) (message : string) (rt' : runtime),
             (status = 400 \/ status = 500)%Z ->
             exists resp rt'',
               (Ok (MkResponse status cors_headers (error_body message w)), rt')
               = (Ok resp, rt'')
               /\ headers resp = cors_headers
               /\ (statusCode resp = 200 \/ statusCode resp = 400
                   \/ statusCode resp = 500)%Z
               /\ exists kvs,
                    body resp = PDict kvs
                    /\ Dict.get kvs "success"
                       = Some (PBool (statusCode resp =? 200)%Z)
                    /\ Dict.get kvs "timestamp" = Some (PInt (time w))
                    /\ (statusCode resp = 200%Z ->
                        exists c, Dict.get kvs "command" = Some (PDict c))
                    /\ (statusCode resp <> 200%Z ->
                        exists msg, Dict.get kvs "error" = Some (PStr msg))).
  { intros status message rt' Hs. eexists _, _. split; [reflexivity|].
    cbn [headers statusCode body]. split; [reflexivity|].
    split; [tauto|]. eexists. split; [reflexivity|].
    assert ((status =? 200)%Z = false) as -> by (destruct Hs; subst; reflexivity).
    split; [reflexivity|]. split; [reflexivity|].
    split; [intros ->; destruct Hs; discriminate|].
    intros _. now exists message. }
  unfold lambda_handler, try_except, io_bind, io_raise_or,
    create_error_response, create_success_response, lift, deref.
  fold (error_body "Missing request body" w).
  fold (error_body "Missing audio data" w).
  fold (error_body "No valid command recognized" w).
  destruct (negb (Dict.has event "body")); [apply Herr; now left|].
  destruct (py_getitem (PDict event) "body") as [event_body|];
    [|apply Herr; now right].
  destruct (decode_body w event_body) as [payload|]; [|apply Herr; now right].
  destruct (py_contains payload "audio") as [has_audio|];
    [|apply Herr; now right].
  destruct (negb has_audio); [apply Herr; now left|].
  destruct (py_getitem payload "audio") as [audio_data|];
    [|apply Herr; now right].
  destruct (py_get payload "rover_ip") as [rover_ip|]; [|apply Herr; now right].
  destruct (process_voice_command audio_data rover_ip w rt)
    as [[[l|]|msg] rt']; [|apply Herr; now left|apply Herr; now right].
  cbn [py events]. destruct (heap (py rt') !! l) as [d|];
    [|apply Herr; now right].
  destruct (truthy (PDict d)); [|apply Herr; now left].
  eexists _, _. split; [reflexivity|]. cbn [headers statusCode body].
  split; [reflexivity|]. split; [now left|]. eexists. split; [reflexivity|].
  split; [reflexivity|]. split; [reflexivity|].
  split; [intros _; now exists d|]. intros H. now destruct H.
Qed.

Section NoSpeedWord.

Lemma value_scan_none words :
  forallb plain_word words = true ->
  Value.speed_modifier_scan catalog words = Ok PNone.
Proof.
  induction words as [|w words IH]; [easy|].
  cbn [forallb Value.speed_modifier_scan]. intros [Hw Hws]%andb_prop.
  unfold plain_word in Hw.
  destruct (Value.lookup catalog w); [|now apply IH].
  apply negb_true_iff in Hw. rewrite Hw. now apply IH.
Qed.

End NoSpeedWord.

(** X13.  Off the exact-match path, when no word of the input is one of
    the speed words, the command returned holds exactly the items of a
    command template of the catalog: the speed is the template's own. *)
Theorem no_speed_word_keeps_template st text d :
  catalog_intact st ->
  no_exact_match text ->
  forallb plain_word (words_of text) = true ->
  returned_value (parse_command_from_text text st) = Ok (Some d) ->
  exists p, In (p, d) catalog /\ is_modifier_entry d = false.
Proof.
  intros Hst Hno Hplain Hret.
  rewrite (returned_value_parse text st Hst) in Hret.
  destruct (value_parse_no_exact text Hno) as (v & b & Hv & Hb & Hp).
  rewrite (value_scan_none _ Hplain) in Hv. injection Hv as <-.
  rewrite Hp in Hret. injection Hret as Hc. unfold Value.compose in Hc.
  destruct (value_loop_winner _ _ _ _ Hb) as [Hnone|(p & t & Hin & Hm & Ht)].
  { cbn [fst] in Hnone. rewrite Hnone in Hc. discriminate. }
  rewrite Ht in Hc. destruct (truthy (PDict t)); [|discriminate].
  cbn [truthy] in Hc. injection Hc as <-. exists p.
  split; [exact Hin|exact Hm].
Qed.

Lemma no_speed_word_keeps_template_witness :
  exists p, In (p, template "move" (PStr "backward") (PStr "normal")) catalog
            /\ is_modifier_entry
                 (template "move" (PStr "backward") (PStr "normal")) = false.
Proof.
  apply (no_speed_word_keeps_template initial_state "please reverse now").
  - split; reflexivity.
  - reflexivity.
  - reflexivity.
  - vm_compute. reflexivity.
Defined.

(** * The polling loop, exactly *)

Section PollingExact.

Lemma pending_run_le w n : forall first, pending_run w first n <= n.
Proof.
  induction n as [|n IH]; intros first; cbn [pending_run]; [lia|].
  destruct (get_transcription_job w first) as [status|]; [|lia].
  destruct (pending status); [|lia]. specialize (IH (S first)). lia.
Qed.

Lemma pending_run_pending w n :
  forall first, job_pending_for w first (pending_run w first n).
Proof.
  induction n as [|n IH]; intros first; cbn [pending_run].
  { intros j Hj. lia. }
  destruct (get_transcription_job w first) as [status|] eqn:Hs;
    [|intros j Hj; lia].
  destruct (pending status) eqn:Hp; [|intros j Hj; lia].
  intros [|j] Hj.
  - exists status. rewrite Nat.add_0_r. now split.
  - replace (first + S j) with (S first + j) by lia. apply IH. lia.
Qed.

(** The run of pending polls ends, within the budget, at a poll that
    raises or reports a completed or failed job. *)
Lemma pending_run_stops w n :
  forall first,
    pending_run w first n < n ->
    match get_transcription_job w (first + pending_run w first n) with
    | Ok status => pending status = false
    | Raise _ => True
    end.
Proof.
  induction n as [|n IH]; intros first; cbn [pending_run]; [lia|].
  destruct (get_transcription_job w first) as [status|] eqn:Hs.
  - destruct (pending status) eqn:Hp.
    + intros H. replace (first + S (pending_run w (S first) n))
        with (S first + pending_run w (S first) n) by lia.
      apply IH. lia.
    + intros _. now rewrite Nat.add_0_r, Hs.
  - intros _. now rewrite Nat.add_0_r, Hs.
Qed.

(** [transcribe_audio], call by call. *)
Lemma transcribe_audio_exact w rt :
  transcribe_audio w rt
  = match start_transcription_job w with
    | Ok _ =>
        (Ok (snd (polling_outcome w (polls (events rt)))),
         MkRuntime (py rt)
           (events rt
            ++ EStartJob :: fst (polling_outcome w (polls (events rt)))
            ++ [EDeleteJob]))
    | Raise _ =>
        (Ok None, MkRuntime (py rt) (events rt ++ [EStartJob; EDeleteJob]))
    end.
Proof.
  rewrite transcribe_audio_body. cbn zeta.
  destruct (start_transcription_job w) as [u|msg].
  2:{ cbn [fst snd events py]. now rewrite <- app_assoc. }
  set (rt1 := MkRuntime (py rt) (events rt ++ [EStartJob])).
  assert (Hp1 : polls (events rt1) = polls (events rt)).
  { unfold rt1. cbn [events]. rewrite polls_app. cbn. lia. }
  unfold polling_outcome.
  set (first := polls (events rt)) in *.
  pose proof (pending_run_le w 30 first) as Hle.
  pose proof (pending_run_pending w 30 first) as Hpend.
  pose proof (pending_run_stops w 30 first) as Hstop.
  set (k := pending_run w first 30) in *.
  rewrite (poll_loop_pending k 0%Z w rt1);
    [|unfold max_wait_time; lia|now rewrite Hp1].
  rewrite poll_loop_body.
  destruct (Z_lt_dec (0 + Z.of_nat k) max_wait_time) as [Hlt|Hge];
    unfold max_wait_time in *.
  - assert (Hk : (k <? 30)%nat = true) by (apply Nat.ltb_lt; lia).
    rewrite Hk. specialize (Hstop ltac:(lia)).
    unfold poll_job, call, loop_ending. cbn [events py].
    rewrite polls_app, polls_rounds, Hp1.
    destruct (get_transcription_job w (first + k)) as [status|msg].
    + unfold pending in Hstop.
      destruct (String.eqb status "COMPLETED") eqn:Hc.
      * destruct (get_transcript w) as [text|msg];
          cbn [fst snd events py]; unfold rt1, normalized; cbn [events py];
          rewrite <- !app_assoc; reflexivity.
      * cbn [negb andb] in Hstop. apply negb_false_iff in Hstop.
        rewrite Hstop. cbn [fst snd events py]. unfold rt1. cbn [events py].
        rewrite <- !app_assoc. reflexivity.
    + cbn [fst snd events py]. unfold rt1. cbn [events py].
      rewrite <- !app_assoc. reflexivity.
  - assert (Hk : k = 30) by lia. rewrite Hk. cbn [Nat.ltb Nat.leb].
    cbn [fst snd events py]. unfold rt1. cbn [events py].
    rewrite <- !app_assoc. reflexivity.
Qed.

(** A poll that raises and a transcript that cannot be read end in no
    transcript. *)
Lemma transcribe_audio_fault_none w rt k :
  k < 30 ->
  job_pending_for w (polls (events rt)) k ->
  raises (get_transcription_job w (polls (events rt) + k))
  \/ (get_transcription_job w (polls (events rt) + k) = Ok "COMPLETED"
      /\ raises (get_transcript w)) ->
  fst (transcribe_audio w rt) = Ok None.
Proof.
  intros Hk Hpend Hfault. rewrite transcribe_audio_body. cbn zeta.
  destruct (start_transcription_job w) as [u|msg]; [|reflexivity].
  set (rt1 := MkRuntime (py rt) (events rt ++ [EStartJob])).
  assert (Hp1 : polls (events rt1) = polls (events rt)).
  { unfold rt1. cbn [events]. rewrite polls_app. cbn. lia. }
  rewrite (poll_loop_pending k 0%Z w rt1);
    [|unfold max_wait_time; lia|now rewrite Hp1].
  rewrite poll_loop_body.
  destruct (Z_lt_dec (0 + Z.of_nat k) max_wait_time) as [_|Hge];
    [|unfold max_wait_time in Hge; lia].
  unfold poll_job, call. cbn [events py].
  rewrite polls_app, polls_rounds, Hp1.
  destruct Hfault as [[msg Hmsg]|[Hdone [msg Hmsg]]].
  - now rewrite Hmsg.
  - rewrite Hdone. change (String.eqb "COMPLETED" "COMPLETED") with true.
    cbv iota. now rewrite Hmsg.
Qed.

Lemma polls_ending w poll : polls (fst (loop_ending w poll)) = 1.
Proof.
  unfold loop_ending. destruct (get_transcription_job w poll) as [status|];
    [|reflexivity].
  now destruct (String.eqb status "COMPLETED").
Qed.

Lemma slept_ending w poll : slept (fst (loop_ending w poll)) = 0%Z.
Proof.
  unfold loop_ending. destruct (get_transcription_job w poll) as [status|];
    [|reflexivity].
  now destruct (String.eqb status "COMPLETED").
Qed.

Lemma sleeps_rounds k :
  Forall (fun e => is_sleep e = true -> e = ESleep 1) (polling_rounds k).
Proof.
  induction k as [|k IH]; cbn [polling_rounds]; [constructor|].
  constructor; [discriminate|]. constructor; [intros _; reflexivity|exact IH].
Qed.

Lemma sleeps_ending w poll :
  Forall (fun e => is_sleep e = true -> e = ESleep 1) (fst (loop_ending w poll)).
Proof.
  unfold loop_ending. destruct (get_transcription_job w poll) as [status|].
  - destruct (String.eqb status "COMPLETED"); cbn [fst];
      repeat (constructor; [discriminate|]); constructor.
  - cbn [fst]. repeat (constructor; [discriminate|]); constructor.
Qed.

End PollingExact.

(** C9.  The polling loop is a total function, defined by recursion on
    what is left of [max_wait_time = 30] while [elapsed_time] grows by
    [wait_interval = 1] per round.  Whatever the services answer,
    [transcribe_audio] returns (it never raises).  When the job has been
    started it polls the status once for each poll that finds the job
    pending and sleeps 1 second after each such poll, before the next one;
    it stops at the first poll that does not find the job pending, and
    after 30 polls at the latest: at most 30 polls and at most 30 seconds
    of sleep.  It returns [None] when none of the 30 polls reports
    completion, and when a poll reports failure before any reports
    completion. *)
Theorem polling_is_bounded w rt :
  exists transcript new,
    transcribe_audio w rt
    = (Ok transcript, MkRuntime (py rt) (events rt ++ new))
    /\ match start_transcription_job w with
       | Ok _ =>
           new = EStartJob :: fst (polling_outcome w (polls (events rt)))
                 ++ [EDeleteJob]
           /\ transcript = snd (polling_outcome w (polls (events rt)))
       | Raise _ => new = [EStartJob; EDeleteJob] /\ transcript = None
       end
    /\ polls new <= 30
    /\ (slept new <= 30)%Z
    /\ Forall (fun e => is_sleep e = true -> e = ESleep 1) new
    /\ (job_never_completes w (polls (events rt)) -> transcript = None)
    /\ (job_fails w (polls (events rt)) -> transcript = None).
Proof.
  pose proof (transcribe_audio_exact w rt) as Hex.
  assert (Hnone : job_never_completes w (polls (events rt))
                  \/ job_fails w (polls (events rt)) ->
                  forall transcript rt',
                    transcribe_audio w rt = (Ok transcript, rt') ->
                    transcript = None).
  { intros H transcript rt' Hrun.
    pose proof (transcribe_audio_none w rt
                  (or_intror (or_intror H))) as Hf.
    rewrite Hrun in Hf. now injection Hf. }
  destruct (start_transcription_job w) as [u|msg].
  - set (first := polls (events rt)) in *.
    exists (snd (polling_outcome w first)),
           (EStartJob :: fst (polling_outcome w first) ++ [EDeleteJob]).
    split; [exact Hex|]. split; [now split|].
    assert (Hb : polls (fst (polling_outcome w first)) <= 30
                 /\ (slept (fst (polling_outcome w first)) <= 30)%Z
                 /\ Forall (fun e => is_sleep e = true -> e = ESleep 1)
                      (fst (polling_outcome w first))).
    { unfold polling_outcome.
      destruct (pending_run w first 30 <? 30)%nat eqn:Hk; cbn [fst].
      - apply Nat.ltb_lt in Hk.
        rewrite polls_app, slept_app, polls_rounds, slept_rounds,
          polls_ending, slept_ending.
        split; [lia|]. split; [lia|].
        apply Forall_app. split; [apply sleeps_rounds|apply sleeps_ending].
      - rewrite polls_rounds, slept_rounds.
        split; [lia|]. split; [lia|]. apply sleeps_rounds. }
    destruct Hb as (Hp & Hs & Hall).
    change (EStartJob :: fst (polling_outcome w first) ++ [EDeleteJob])
      with ([EStartJob] ++ fst (polling_outcome w first) ++ [EDeleteJob]).
    rewrite !polls_app, !slept_app.
    split; [cbn; lia|]. split; [cbn; lia|]. split.
    { cbn [app]. constructor; [discriminate|]. apply Forall_app.
      split; [exact Hall|]. constructor; [discriminate|constructor]. }
    split; intros H; eapply Hnone; eauto.
  - exists None, [EStartJob; EDeleteJob].
    split; [exact Hex|]. split; [now split|].
    split; [cbn; lia|]. split; [cbn; lia|].
    split; [repeat (constructor; [discriminate|]); constructor|].
    split; reflexivity.
Qed.

(** * Faults and the status of the response *)

Section PipelineFaults.

(** Every fault of the pipeline ends in "no command". *)
Lemma process_voice_command_fault audio_data rover_ip w rt :
  pipeline_fault w rt audio_data ->
  fst (process_voice_command audio_data rover_ip w rt) = Ok None.
Proof.
  intros H. apply process_voice_command_none.
  destruct H as [H|[H|[H|H]]]; [tauto..|]. do 3 right.
  destruct H as [H|[(k & Hk & Hpend & Hpoll)|(k & Hk & Hpend & Hdone & Hfetch)]].
  - apply transcribe_audio_none. now left.
  - apply (transcribe_audio_fault_none _ _ k Hk);
      rewrite polls_after_upload; [exact Hpend|now left].
  - apply (transcribe_audio_fault_none _ _ k Hk);
      rewrite polls_after_upload; [exact Hpend|now right].
Qed.

(** A fault while the body is decoded and checked reaches the handler of
    lines 91-93. *)
Lemma lambda_handler_envelope_fault event w rt event_body msg :
  Dict.get event "body" = Some event_body ->
  decode_body w event_body = Raise msg
  \/ (exists payload,
        decode_body w event_body = Ok payload
        /\ (py_contains payload "audio" = Raise msg
            \/ (py_contains payload "audio" = Ok true
                /\ py_getitem payload "audio" = Raise msg))) ->
  lambda_handler event w rt
  = (Ok (MkResponse 500 cors_headers
           (error_body ("Internal server error: " +:+ msg) w)), rt).
Proof.
  intros Hev H.
  unfold lambda_handler, try_except. unfold Dict.has. rewrite Hev.
  cbn [negb]. unfold io_bind at 1, io_raise_or at 1. cbn [py_getitem].
  rewrite Hev. unfold io_bind at 1, io_raise_or at 1.
  destruct H as [->|(payload & -> & [Hhas|[Hhas Hget]])]; [reflexivity| |].
  - unfold io_bind at 1, io_raise_or at 1. now rewrite Hhas.
  - unfold io_bind at 1, io_raise_or at 1. rewrite Hhas. cbn [negb].
    unfold io_bind at 1, io_raise_or at 1. now rewrite Hget.
Qed.

End PipelineFaults.

(** C4, as the code behaves.  A fault inside the pipeline (decoding the
    audio, reading the bucket name, uploading the blob, starting the
    job, any poll of its status, fetching and reading the transcript) is
    caught on the way and answered with status 400 and the error "No
    valid command recognized"; the message of the fault is not reported.
    Status 500, with the message of the fault after "Internal server
    error: ", is the answer to a fault raised in the handler itself, while
    the body is decoded and checked for the audio. *)
Theorem pipeline_faults_get_400 :
  (forall event w rt audio_data rover_ip,
      request_audio w event audio_data rover_ip ->
      pipeline_fault w rt audio_data ->
      fst (lambda_handler event w rt)
      = Ok (MkResponse 400 cors_headers
              (error_body "No valid command recognized" w)))
  /\ (forall event w rt event_body msg,
         Dict.get event "body" = Some event_body ->
         decode_body w event_body = Raise msg ->
         lambda_handler event w rt
         = (Ok (MkResponse 500 cors_headers
                  (error_body ("Internal server error: " +:+ msg) w)), rt))
  /\ (forall event w rt event_body payload msg,
         Dict.get event "body" = Some event_body ->
         decode_body w event_body = Ok payload ->
         py_contains payload "audio" = Raise msg
         \/ (py_contains payload "audio" = Ok true
             /\ py_getitem payload "audio" = Raise msg) ->
         lambda_handler event w rt
         = (Ok (MkResponse 500 cors_headers
                  (error_body ("Internal server error: " +:+ msg) w)), rt)).
Proof.
  split; [|split].
  - intros event w rt a r Hreq Hfault.
    pose proof (process_voice_command_fault a r w rt Hfault) as Hrun.
    destruct (process_voice_command a r w rt) as [c rt'] eqn:E.
    cbn [fst] in Hrun. subst c.
    now rewrite (lambda_handler_no_command event w rt a r rt' Hreq E).
  - intros event w rt event_body msg Hev Hbody.
    apply (lambda_handler_envelope_fault event w rt event_body msg Hev).
    now left.
  - intros event w rt event_body payload msg Hev Hbody H.
    apply (lambda_handler_envelope_fault event w rt event_body msg Hev).
    right. now exists payload.
Qed.

Lemma pipeline_faults_get_400_witness :
  fst (lambda_handler (request "A") world_bad_audio runtime0)
  = Ok (MkResponse 400 cors_headers
          (error_body "No valid command recognized" world_bad_audio))
  /\ statusCode_of (lambda_handler (request "UklGRg==") world_poll_fault runtime0)
     = Some 400%Z
  /\ statusCode_of (lambda_handler (request "UklGRg==") world_fetch_fault runtime0)
     = Some 400%Z
  /\ fst (lambda_handler [("body", PStr "")] (world_ok "stop") runtime0)
     = Ok (MkResponse 500 cors_headers
             (error_body
                "Internal server error: Expecting value: line 1 column 1 (char 0)"
                (world_ok "stop")))
  /\ statusCode_of (lambda_handler [("body", PList [PStr "audio"])]
                      (world_ok "stop") runtime0)
     = Some 500%Z.
Proof.
  destruct pipeline_faults_get_400 as (Hpipe & Hjson & Hcheck).
  assert (Hreq : forall w a, request_audio w (request a) (PStr a) PNone).
  { intros w a. exists (PDict [("audio", PStr a)]), (PDict [("audio", PStr a)]).
    repeat split; cbn; now rewrite ?String.eqb_refl. }
  split; [|split; [|split; [|split]]].
  - apply (Hpipe (request "A") world_bad_audio runtime0 (PStr "A") PNone
             (Hreq _ _)).
    left. now exists "Incorrect padding".
  - unfold statusCode_of.
    rewrite (Hpipe (request "UklGRg==") world_poll_fault runtime0
               (PStr "UklGRg==") PNone (Hreq _ _)); [reflexivity|].
    do 4 right. left. exists 2. split; [lia|]. split.
    + intros j Hj. exists "IN_PROGRESS". split; [|reflexivity].
      destruct j as [|[|j]]; [reflexivity..|lia].
    + now eexists.
  - unfold statusCode_of.
    rewrite (Hpipe (request "UklGRg==") world_fetch_fault runtime0
               (PStr "UklGRg==") PNone (Hreq _ _)); [reflexivity|].
    do 5 right. exists 3. split; [lia|]. split; [|split].
    + intros j Hj. exists "IN_PROGRESS". split; [|reflexivity].
      destruct j as [|[|[|j]]]; [reflexivity..|lia].
    + reflexivity.
    + now eexists.
  - now rewrite (Hjson [("body", PStr "")] (world_ok "stop") runtime0
                   (PStr "") "Expecting value: line 1 column 1 (char 0)"
                   eq_refl eq_refl).
  - unfold statusCode_of.
    now rewrite (Hcheck [("body", PList [PStr "audio"])] (world_ok "stop")
                   runtime0 (PList [PStr "audio"]) (PList [PStr "audio"])
                   "list indices must be integers or slices, not str"
                   eq_refl eq_refl (or_intror (conj eq_refl eq_refl))).
Defined.

(** C4 as the specification states it does not hold: the audio of this
    request is not valid base64, [b64decode] raises, and the answer is
    not a 500. *)
Lemma decode_fault_is_not_a_500 :
  ~ (forall event w rt audio_data rover_ip msg,
        request_audio w event audio_data rover_ip ->
        b64decode w audio_data = Raise msg ->
        statusCode_of (lambda_handler event w rt) = Some 500%Z).
Proof.
  intros H.
  specialize (H (request "A") world_bad_audio runtime0 (PStr "A") PNone
                "Incorrect padding").
  assert (Hreq : request_audio world_bad_audio (request "A") (PStr "A") PNone).
  { exists (PDict [("audio", PStr "A")]), (PDict [("audio", PStr "A")]).
    repeat split; reflexivity. }
  specialize (H Hreq eq_refl). vm_compute in H. discriminate H.
Qed.

(** C5 as the specification states it does not hold: a request whose
    body is null has no audio field, and it is answered with 500. *)
Lemma null_body_is_answered_500 :
  ~ (forall event w rt,
        Dict.has event "body" = false
        \/ (exists event_body payload,
               Dict.get event "body" = Some event_body
               /\ decode_body w event_body = Ok payload
               /\ lacks_audio_field payload) ->
        statusCode_of (lambda_handler event w rt) = Some 400%Z).
Proof.
  intros H.
  specialize (H [("body", PNone)] (world_ok "stop") runtime0).
  assert (Hstatus : statusCode_of
                      (lambda_handler [("body", PNone)] (world_ok "stop")
                         runtime0) = Some 500%Z)
    by (vm_compute; reflexivity).
  rewrite Hstatus in H. discriminate H.
  right. exists PNone, PNone. repeat split.
Qed.
